(** * go-metacontroller: the decode / dispatch / encode pipeline of the hook server

    A shallow embedding of the webhook adapter (hookserver.go, http_handlers.go
    and the [composition] package) together with the properties its
    specification states about it.

    Conventions of the embedding.
    - Go maps are [gmap]s.  A [range] over a Go map visits the entries in an
      order the language leaves unspecified; every such loop takes its order
      from a [MapOrder], and theorems quantify over all of them.
    - [json.RawMessage] is a byte sequence.
    - The Type Catalog (the decoder and encoder obtained from the codec
      factory) is external: it is the class [Catalog], over which every
      definition and theorem is generic.
    - Go's dynamic type assertions [p.(P)] are run-time tests on the decoded
      object; a type parameter is therefore carried as the test it induces.
    - [ServeHTTP] mutates the response writer and the loggers and may return
      early: handlers run in a small state monad with an exit. *)

From Stdlib Require Import Strings.String Strings.Ascii Strings.Byte ZArith List.
From stdpp Require Import base option list gmap strings fin_maps.

Local Open Scope Z_scope.

(** ** Kind identifiers ([schema.GroupVersionKind]) and their string keys *)

Record GroupVersionKind := GVK {
  Group : string;
  Version : string;
  Kind : string
}.

#[global] Instance GroupVersionKind_eq_dec : EqDecision GroupVersionKind.
Proof. solve_decision. Defined.

#[global] Instance GroupVersionKind_countable : Countable GroupVersionKind.
Proof.
  refine (inj_countable' (fun g => (Group g, Version g, Kind g))
                         (fun t => GVK t.1.1 t.1.2 t.2) _).
  by intros [].
Defined.

(** [KeyForGVK]: "group/version/kind", or "version/kind" when the group is
    empty ([fmt.Sprintf] with [%s/%s] and [%s/%s/%s]). *)
Definition KeyForGVK (gvk : GroupVersionKind) : string :=
  if decide (Group gvk = "") then
    Version gvk +:+ "/" +:+ Kind gvk
  else
    Group gvk +:+ "/" +:+ Version gvk +:+ "/" +:+ Kind gvk.

(** The separator of the key. *)
Fixpoint has_slash (s : string) : bool :=
  match s with
  | EmptyString => false
  | String c r => if decide (c = "/"%char) then true else has_slash r
  end.

(** The identifiers whose key can be cut back into its fields: no "/" in
    the version and none in the kind.  The group is free. *)
Definition separable (gvk : GroupVersionKind) : Prop :=
  has_slash (Version gvk) = false ∧
  has_slash (Kind gvk) = false.

(** The fields of a string between its slashes. *)
Fixpoint split_slash (s : string) : list string :=
  match s with
  | EmptyString => [EmptyString]
  | String c r =>
      if decide (c = "/"%char) then EmptyString :: split_slash r
      else match split_slash r with
           | h :: t => String c h :: t
           | [] => [String c EmptyString]
           end
  end.

(** A string cut at its last "/": what stands before it and what stands
    after it. *)
Fixpoint cut_last (s : string) : option (string * string) :=
  match s with
  | EmptyString => None
  | String c r =>
      match cut_last r with
      | Some (front, back) => Some (String c front, back)
      | None => if decide (c = "/"%char) then Some (EmptyString, r) else None
      end
  end.

(** The specification speaks of reading a key back.  The repository has no
    such function; this is the reading the specification's words describe
    for "version/kind" and "group/version/kind": the kind stands after the
    last "/", the version before it, and what stands before the version,
    when there is something, is the group (which is then not empty). *)
Definition spec_ParseKey (key : string) : option GroupVersionKind :=
  match cut_last key with
  | None => None
  | Some (front, k) =>
      match cut_last front with
      | None => Some (GVK "" front k)
      | Some (g, v) => if decide (g = "") then None else Some (GVK g v k)
      end
  end.

(** ** Wire data and the external collaborators *)

(** [json.RawMessage]: the bytes of one JSON value, kept verbatim. *)
Definition RawMessage : Type := list byte.

(** Go's [string(raw)] conversion. *)
Definition string_of_raw (raw : RawMessage) : string := string_of_list_byte raw.

(** Go's [(value, error)] results: [inl] carries the value, [inr] the text of
    the error ([err.Error()]). *)
Definition result (A : Type) : Type := A + string.

Definition is_error {A : Type} (r : result A) : bool :=
  match r with inr _ => true | inl _ => false end.

Record GroupVersion := GV {
  GV_Group : string;
  GV_Version : string
}.

Record GroupVersionResource := GVR {
  GVR_Group : string;
  GVR_Version : string;
  GVR_Resource : string
}.

(** [gvr.GroupVersion()] *)
Definition GVR_GroupVersion (gvr : GroupVersionResource) : GroupVersion :=
  GV (GVR_Group gvr) (GVR_Version gvr).

(** [gvr.GroupResource().String()]: the resource alone when the group is
    empty, else "resource.group". *)
Definition GVR_GroupResource_String (gvr : GroupVersionResource) : string :=
  if decide (GVR_Group gvr = "") then GVR_Resource gvr
  else GVR_Resource gvr +:+ "." +:+ GVR_Group gvr.

Inductive Level := LevelDebug | LevelInfo | LevelWarn | LevelError.

(** [*slog.Logger], as far as the code consults it: [logger.Enabled]. *)
Record slog_Logger := { Enabled : Level → bool }.

(** The Type Catalog and the other types the repository imports: the universe
    of decoded objects ([runtime.Object]), the test behind the assertion
    [obj.(client.Object)], the two codecs the codec factory hands out, the
    label selector of [metav1], the request context, the error (if any)
    with which the [Shutdown] of [http.Server] answers a context,
    [http.StatusText] and [slog.Default()]. *)
Class Catalog := {
  Object : Type;
  isClientObject : Object → bool;
  UniversalDecoder : RawMessage → result (Object * GroupVersionKind);
  LegacyCodec : GroupVersion → Object → result RawMessage;
  LabelSelector : Type;
  context_Context : Type;
  httpServer_Shutdown : context_Context → option string;
  StatusText : Z → string;
  slog_Default : slog_Logger
}.

(** A type parameter [P] of a generic handler, carried as the run-time test
    of the assertion [p.(P)]. *)
Definition TypeParam `{Catalog} : Type := Object → bool.

(** A Child Set: [map[schema.GroupVersionKind][]client.Object]. *)
Abbreviation ChildSet := (gmap GroupVersionKind (list Object)).

(** ** The [composition] package: typed requests and responses *)

Section composition.
Context `{Catalog}.

Record SyncRequest := {
  SyncRequest_Parent : Object;
  SyncRequest_Children : ChildSet;
  SyncRequest_Finalizing : bool
}.

Record SyncResponse := {
  SyncResponse_Status : Object;
  SyncResponse_Children : ChildSet
}.

Record FinalizeRequest := {
  FinalizeRequest_Parent : Object;
  FinalizeRequest_Children : ChildSet
}.

Record FinalizeResponse := {
  FinalizeResponse_Status : Object;
  FinalizeResponse_Children : ChildSet;
  FinalizeResponse_Finalized : bool
}.

Record CustomizeRequest := {
  CustomizeRequest_Controller : RawMessage;
  CustomizeRequest_Parent : Object
}.

Record ResourceRule := {
  ResourceRule_APIVersion : string;
  ResourceRule_Resource : string;
  ResourceRule_LabelSelector : option LabelSelector;
  ResourceRule_Namespace : string;
  ResourceRule_Names : list string
}.

Record CustomizeResponse := {
  CustomizeResponse_RelatedResources : list ResourceRule
}.

(** The three handler interfaces.  A handler is modelled by the result it
    returns for a request: a response or an error.  (A handler that returns
    neither, Go's [nil, nil], is outside the model.) *)
Class Syncer (S : Type) := Sync : S → SyncRequest → result SyncResponse.
Class Finalizer (F : Type) := Finalize : F → FinalizeRequest → result FinalizeResponse.
Class Customizer (C : Type) := Customize : C → CustomizeRequest → result CustomizeResponse.

(** [SyncerFunc], [FinalizeFunc], [CustomizeFunc]: functions as handlers. *)
Definition SyncerFunc : Type := SyncRequest → result SyncResponse.
Definition FinalizeFunc : Type := FinalizeRequest → result FinalizeResponse.
Definition CustomizeFunc : Type := CustomizeRequest → result CustomizeResponse.

#[global] Instance SyncerFunc_Syncer : Syncer SyncerFunc := fun fn req => fn req.
#[global] Instance FinalizeFunc_Finalizer : Finalizer FinalizeFunc := fun fn req => fn req.
#[global] Instance CustomizeFunc_Customizer : Customizer CustomizeFunc := fun fn req => fn req.
End composition.

(** ** http_handlers.go: raw envelopes *)

Section raw.
Context `{Catalog}.

(** [rawCompositeRequest]; [Children] is
    [map[string]map[string]json.RawMessage], [None] being the nil map of an
    absent member. *)
Record rawCompositeRequest := {
  rawCompositeRequest_Parent : RawMessage;
  rawCompositeRequest_Children : option (gmap string (gmap string RawMessage));
  rawCompositeRequest_Finalizing : bool
}.

Record rawCompositeResponse := {
  rawCompositeResponse_Status : RawMessage;
  rawCompositeResponse_Children : gmap string (list RawMessage);
  rawCompositeResponse_Finalized : bool
}.

Record rawCustomizeRequest := {
  rawCustomizeRequest_Controller : RawMessage;
  rawCustomizeRequest_Parent : RawMessage
}.

(** The members of a request body that the raw request structs declare,
    as they stand on the wire: objects are member lists in wire order, and
    an absent member is the zero value. *)
Record Envelope := {
  wire_parent : RawMessage;
  wire_controller : RawMessage;
  wire_children : option (list (string * list (string * RawMessage)));
  wire_finalizing : bool
}.

(** What [json.NewDecoder(r.Body).Decode(&rawReq)] finds in a body: a
    decoding error or the envelope. *)
Definition Body : Type := result Envelope.

(** [encoding/json] fills a Go map member by member; a repeated key
    overwrites the earlier entry. *)
Definition json_object_to_map {V : Type} (members : list (string * V)) : gmap string V :=
  foldl (fun m kv => <[kv.1 := kv.2]> m) ∅ members.

Definition decode_rawCompositeRequest (e : Envelope) : rawCompositeRequest :=
  {| rawCompositeRequest_Parent := wire_parent e;
     rawCompositeRequest_Children :=
       (fun kinds => json_object_to_map (prod_map id json_object_to_map <$> kinds))
         <$> wire_children e;
     rawCompositeRequest_Finalizing := wire_finalizing e |}.

Definition decode_rawCustomizeRequest (e : Envelope) : rawCustomizeRequest :=
  {| rawCustomizeRequest_Controller := wire_controller e;
     rawCustomizeRequest_Parent := wire_parent e |}.

(** The value handed to [json.NewEncoder(w).Encode]. *)
Inductive EncodedValue :=
| EncRawCompositeResponse (r : rawCompositeResponse)
| EncFinalizeResponse (r : FinalizeResponse)
| EncCustomizeResponse (r : CustomizeResponse).

(** The members of the JSON object that [encoding/json] emits for such a
    value, read off the struct tags: a tagged field goes under its tag
    (and is left out when [omitempty] meets a zero value); an untagged
    field goes under its Go name. *)
Inductive JSONValue :=
| JRaw (raw : RawMessage)
| JBool (b : bool)
| JRawChildren (m : gmap string (list RawMessage))
| JObject (o : Object)
| JChildSet (cs : ChildSet)
| JRules (rules : list ResourceRule).

Definition json_members (v : EncodedValue) : list (string * JSONValue) :=
  match v with
  | EncRawCompositeResponse r =>
      (if decide (rawCompositeResponse_Status r = []) then []
       else [("status", JRaw (rawCompositeResponse_Status r))]) ++
      (if decide (rawCompositeResponse_Children r = ∅) then []
       else [("children", JRawChildren (rawCompositeResponse_Children r))]) ++
      (if rawCompositeResponse_Finalized r then [("finalized", JBool true)] else [])
  | EncFinalizeResponse r =>
      [("Status", JObject (FinalizeResponse_Status r));
       ("Children", JChildSet (FinalizeResponse_Children r));
       ("Finalized", JBool (FinalizeResponse_Finalized r))]
  | EncCustomizeResponse r =>
      [("relatedResources", JRules (CustomizeResponse_RelatedResources r))]
  end.

(** Reading a member of the emitted object by its exact name. *)
Definition json_member (name : string) (v : EncodedValue) : option JSONValue :=
  (fun ikv => ikv.2.2) <$> list_find (fun kv => kv.1 = name) (json_members v).
End raw.

(** Whether [encoding/json] can marshal a value is its own affair: [Some]
    carries the error of [Encode], [None] means the value was written. *)
Class JSONEncoder `{Catalog} := json_Encode_error : EncodedValue → option string.

(** ** HTTP and logging state *)

(** Where a record was sent: the package-level [slog] functions or the
    server's own logger. *)
Inductive Sink := DefaultLogger | ServerLogger.

(** One call of a logging method: message and attributes. *)
Record LogRecord := {
  log_sink : Sink;
  log_level : Level;
  log_msg : string;
  log_attrs : list (string * string)
}.

Section http.
Context `{JSONEncoder}.

Inductive Payload :=
| PlainText (text : string)
| JSON (v : EncodedValue).

(** [http.ResponseWriter]: headers, the status code once written, and the
    writes to the body. *)
Record ResponseWriter := {
  rw_header : gmap string string;
  rw_code : option Z;
  rw_body : list Payload
}.

(** The status the client sees: 200 unless a header was written. *)
Definition response_status (w : ResponseWriter) : Z := default 200 (rw_code w).

Inductive Call :=
| SyncCall (req : SyncRequest)
| FinalizeCall (req : FinalizeRequest)
| CustomizeCall (req : CustomizeRequest).

(** Everything one [ServeHTTP] can touch: the response writer, the log
    records issued and the calls made into the user's handlers. *)
Record World := {
  writer : ResponseWriter;
  logs : list LogRecord;
  calls : list Call
}.

Definition World0 : World :=
  {| writer := {| rw_header := ∅; rw_code := None; rw_body := [] |};
     logs := []; calls := [] |}.

(** State with early exit: [None] is Go's bare [return] out of [ServeHTTP]. *)
Definition M (A : Type) : Type := World → option A * World.

#[global] Instance M_ret : MRet M := fun A a s => (Some a, s).
#[global] Instance M_bind : MBind M := fun A B f m s =>
  match m s with
  | (Some a, s') => f a s'
  | (None, s') => (None, s')
  end.

Definition exit {A : Type} : M A := fun s => (None, s).

Definition run (m : M unit) : World := (m World0).2.

Definition log (sink : Sink) (level : Level) (msg : string)
    (attrs : list (string * string)) : M unit := fun s =>
  (Some (),
   {| writer := writer s;
      logs := logs s ++ [{| log_sink := sink; log_level := level;
                           log_msg := msg; log_attrs := attrs |}];
      calls := calls s |}).

Definition modify_writer (f : ResponseWriter → ResponseWriter) : M unit := fun s =>
  (Some (), {| writer := f (writer s); logs := logs s; calls := calls s |}).

Definition record_call (c : Call) : M unit := fun s =>
  (Some (), {| writer := writer s; logs := logs s; calls := calls s ++ [c] |}).

(** [w.Header().Set] and [w.Header().Del] *)
Definition Header_Set (k v : string) : M unit :=
  modify_writer (fun w =>
    {| rw_header := <[k := v]> (rw_header w); rw_code := rw_code w; rw_body := rw_body w |}).

Definition Header_Del (k : string) : M unit :=
  modify_writer (fun w =>
    {| rw_header := delete k (rw_header w); rw_code := rw_code w; rw_body := rw_body w |}).

(** [w.WriteHeader]: only the first call counts. *)
Definition rw_WriteHeader (code : Z) : M unit :=
  modify_writer (fun w =>
    {| rw_header := rw_header w;
       rw_code := Some (default code (rw_code w));
       rw_body := rw_body w |}).

(** [w.Write]: an implicit [WriteHeader(200)], then the bytes. *)
Definition rw_Write (p : Payload) : M unit :=
  modify_writer (fun w =>
    {| rw_header := rw_header w;
       rw_code := Some (default 200 (rw_code w));
       rw_body := rw_body w ++ [p] |}).

(** The line feed with which [fmt.Fprintln] ends the text of [http.Error]. *)
Definition newline : string := String "010"%char EmptyString.

(** [http.Error] *)
Definition http_Error (msg : string) (code : Z) : M unit :=
  Header_Del "Content-Length";;
  Header_Set "Content-Type" "text/plain; charset=utf-8";;
  Header_Set "X-Content-Type-Options" "nosniff";;
  rw_WriteHeader code;;
  rw_Write (PlainText (msg +:+ newline)).

(** [json.NewEncoder(w).Encode(v)]: the value is written whole or, on an
    error, not at all; the error is handed to [on_error]. *)
Definition json_Encode (v : EncodedValue) (on_error : string → M unit) : M unit :=
  match json_Encode_error v with
  | Some err => on_error err
  | None => rw_Write (JSON v)
  end.

Definition StatusBadRequest : Z := 400.
Definition StatusInternalServerError : Z := 500.
Definition StatusMethodNotAllowed : Z := 405.
Definition StatusNotFound : Z := 404.

(** The category text [writeError] picks for a status code. *)
Definition category (code : Z) : string :=
  if decide (code = StatusBadRequest) then "bad request"
  else if decide (code = StatusInternalServerError) then "internal server error"
  else if decide (code = StatusMethodNotAllowed) then "method not allowed"
  else StatusText code.

(** [writeError]: log through the default logger, pick the category text,
    append the detail when the given logger is enabled at debug level. *)
Definition writeError (code : Z) (err : string) (logger : slog_Logger) : M unit :=
  log DefaultLogger LevelError ("Error: " +:+ err) [];;
  let msg := category code in
  let msg := if Enabled logger LevelDebug then msg +:+ ": " +:+ err else msg in
  http_Error msg code.
End http.

(** ** http_handlers.go: the three handlers *)

Section handlers.
Context `{JSONEncoder}.

(** The orders in which one [ServeHTTP] ranges over its Go maps: the
    kind buckets of the request, the named children of each bucket (one
    order per bucket), and the buckets of the handler's response.  Each is
    some arrangement of the map's entries; nothing else is known of it. *)
Record MapOrder := {
  range_kinds :
    gmap string (gmap string RawMessage) → list (string * gmap string RawMessage);
  range_names : string → gmap string RawMessage → list (string * RawMessage);
  range_desired : ChildSet → list (GroupVersionKind * list Object);
  range_kinds_perm : ∀ m, range_kinds m ≡ₚ map_to_list m;
  range_names_perm : ∀ k m, range_names k m ≡ₚ map_to_list m;
  range_desired_perm : ∀ m, range_desired m ≡ₚ map_to_list m
}.

(** A [for] loop over [l] that threads the loop-carried variable through
    the body; an [exit] in the body leaves the whole handler. *)
Fixpoint forM {A S : Type} (l : list A) (body : A → S → M S) (s : S) : M S :=
  match l with
  | [] => mret s
  | x :: l' => s' ← body x s; forM l' body s'
  end.

Record Request := {
  req_method : string;
  req_path : string;
  req_body : Body
}.

(** The body of the inner child loop, shared by the sync and finalize
    handlers up to the two log messages: a child that does not decode, or
    is no [client.Object], is logged and skipped ([continue]); any other
    is appended to the bucket of its decoded kind. *)
Definition decodeChild (decoder : RawMessage → result (Object * GroupVersionKind))
    (msg_decode msg_assert : string)
    (rawChild : RawMessage) (observedChildren : ChildSet) : M ChildSet :=
  match decoder rawChild with
  | inr err =>
      log ServerLogger LevelError msg_decode
        [("error", err); ("child", string_of_raw rawChild)];;
      mret observedChildren
  | inl (childObj, childGVK) =>
      if isClientObject childObj then
        mret (<[childGVK := observedChildren !!! childGVK ++ [childObj]]> observedChildren)
      else
        log ServerLogger LevelError msg_assert [("child", string_of_raw rawChild)];;
        mret observedChildren
  end.

(** The two nested [range] loops over [rawReq.Children]. *)
Definition decodeChildren (ord : MapOrder)
    (decoder : RawMessage → result (Object * GroupVersionKind))
    (msg_decode msg_assert : string)
    (children : option (gmap string (gmap string RawMessage))) : M ChildSet :=
  forM (range_kinds ord (default ∅ children))
    (fun '(kind, rawList) observedChildren =>
       forM (range_names ord kind rawList)
         (fun '(_, rawChild) => decodeChild decoder msg_decode msg_assert rawChild)
         observedChildren)
    ∅.

(** The handler structs.  Their [scheme] field, like the request context,
    is only passed on to the user's handler and is left out. *)
Record syncHandler := {
  sync_P : TypeParam;
  sync_decoder : RawMessage → result (Object * GroupVersionKind);
  sync_encoder : Object → result RawMessage;
  sync_syncer : SyncerFunc;
  sync_logger : slog_Logger
}.

Record customizeHandler := {
  customize_P : TypeParam;
  customize_decoder : RawMessage → result (Object * GroupVersionKind);
  customize_customizer : CustomizeFunc;
  customize_logger : slog_Logger
}.

Record finalizeHandler := {
  finalize_P : TypeParam;
  finalize_decoder : RawMessage → result (Object * GroupVersionKind);
  finalize_finalizer : FinalizeFunc;
  finalize_logger : slog_Logger
}.

(** The inner encode loop of the sync handler: the first child that does
    not encode ends the request. *)
Definition encodeObjects (sh : syncHandler) (objs : list Object) : M (list RawMessage) :=
  forM objs
    (fun obj rawList =>
       match sync_encoder sh obj with
       | inr err =>
           writeError StatusInternalServerError
             ("SyncHook: error encoding child: " +:+ err) (sync_logger sh);;
           exit
       | inl data => mret (rawList ++ [data])
       end)
    [].

Definition encodeChildren (ord : MapOrder) (sh : syncHandler) (children : ChildSet)
    : M (gmap string (list RawMessage)) :=
  forM (range_desired ord children)
    (fun '(gvk, objs) desiredChildren =>
       let key := KeyForGVK gvk in
       rawList ← encodeObjects sh objs;
       mret (<[key := rawList]> desiredChildren))
    ∅.

(** [syncHandler.ServeHTTP] *)
Definition syncHandler_ServeHTTP (ord : MapOrder) (sh : syncHandler) (r : Request) : M unit :=
  rawReq ← match req_body r with
           | inr err =>
               writeError StatusBadRequest
                 ("SyncHook: error decoding request: " +:+ err) (sync_logger sh);;
               exit
           | inl e => mret (decode_rawCompositeRequest e)
           end;
  p ← match sync_decoder sh (rawCompositeRequest_Parent rawReq) with
      | inr err =>
          writeError StatusBadRequest
            ("SyncHook: error decoding parent: " +:+ err) (sync_logger sh);;
          exit
      | inl (p, _) => mret p
      end;
  parent ← (if sync_P sh p then mret p
            else
              writeError StatusBadRequest
                "SyncHook: type assertion failure: parent" (sync_logger sh);;
              exit);
  observedChildren ←
    decodeChildren ord (sync_decoder sh)
      "SyncHook: error decoding child"
      "SyncHook: type assertion failure: child is not a client.Object"
      (rawCompositeRequest_Children rawReq);
  let req := {| SyncRequest_Parent := parent;
                SyncRequest_Children := observedChildren;
                SyncRequest_Finalizing := rawCompositeRequest_Finalizing rawReq |} in
  record_call (SyncCall req);;
  resp ← match Sync (sync_syncer sh) req with
         | inr err =>
             writeError StatusInternalServerError
               ("SyncHook: handler error: " +:+ err) (sync_logger sh);;
             exit
         | inl resp => mret resp
         end;
  statusBytes ← match sync_encoder sh (SyncResponse_Status resp) with
                | inr err =>
                    writeError StatusInternalServerError
                      ("SyncHook: error encoding status: " +:+ err) (sync_logger sh);;
                    exit
                | inl data => mret data
                end;
  desiredChildren ← encodeChildren ord sh (SyncResponse_Children resp);
  Header_Set "Content-Type" "application/json";;
  json_Encode
    (EncRawCompositeResponse
       {| rawCompositeResponse_Status := statusBytes;
          rawCompositeResponse_Children := desiredChildren;
          rawCompositeResponse_Finalized := false |})
    (fun err => log ServerLogger LevelError
                  ("SyncHook: error encoding response: " +:+ err) []).

(** [customizeHandler.ServeHTTP] *)
Definition customizeHandler_ServeHTTP (ch : customizeHandler) (r : Request) : M unit :=
  rawReq ← match req_body r with
           | inr err =>
               writeError StatusBadRequest
                 ("CustomizeHook: error decoding request: " +:+ err) (customize_logger ch);;
               exit
           | inl e => mret (decode_rawCustomizeRequest e)
           end;
  p ← match customize_decoder ch (rawCustomizeRequest_Parent rawReq) with
      | inr err =>
          writeError StatusBadRequest
            ("CustomizeHook: error decoding parent: " +:+ err) (customize_logger ch);;
          exit
      | inl (p, _) => mret p
      end;
  parent ← (if customize_P ch p then mret p
            else
              writeError StatusBadRequest
                "CustomizeHook: type assertion failure for parent" (customize_logger ch);;
              exit);
  let req := {| CustomizeRequest_Controller := rawCustomizeRequest_Controller rawReq;
                CustomizeRequest_Parent := parent |} in
  record_call (CustomizeCall req);;
  resp ← match Customize (customize_customizer ch) req with
         | inr err =>
             writeError StatusInternalServerError
               ("CustomizeHook: CustomizeHandler failed with error: " +:+ err)
               (customize_logger ch);;
             exit
         | inl resp => mret resp
         end;
  Header_Set "Content-Type" "application/json";;
  json_Encode (EncCustomizeResponse resp)
    (fun err => log ServerLogger LevelError
                  "CustomizeHook: error encoding response" [("error", err)]).

(** [finalizeHandler.ServeHTTP].  The children are decoded into
    [observedChildren]; the request built for the finalizer sets only
    [Parent], so its [Children] is the nil map. *)
Definition finalizeHandler_ServeHTTP (ord : MapOrder) (fh : finalizeHandler) (r : Request)
    : M unit :=
  rawReq ← match req_body r with
           | inr err =>
               writeError StatusBadRequest
                 ("FinalizeHook: error decoding request: " +:+ err) (finalize_logger fh);;
               exit
           | inl e => mret (decode_rawCompositeRequest e)
           end;
  p ← match finalize_decoder fh (rawCompositeRequest_Parent rawReq) with
      | inr err =>
          writeError StatusBadRequest
            ("FinalizeHook: error decoding parent: " +:+ err) (finalize_logger fh);;
          exit
      | inl (p, _) => mret p
      end;
  parent ← (if finalize_P fh p then mret p
            else
              writeError StatusBadRequest
                "FinalizeHook: type assertion failure for parent" (finalize_logger fh);;
              exit);
  observedChildren ←
    decodeChildren ord (finalize_decoder fh)
      "Finalize error: unable to decoding child"
      "Finalize error: child is not a client.Object"
      (rawCompositeRequest_Children rawReq);
  let req := {| FinalizeRequest_Parent := parent;
                FinalizeRequest_Children := ∅ |} in
  record_call (FinalizeCall req);;
  resp ← match Finalize (finalize_finalizer fh) req with
         | inr err =>
             writeError StatusInternalServerError
               ("FinalizeHook: FinalizeHandler failed with error: " +:+ err)
               (finalize_logger fh);;
             exit
         | inl resp => mret resp
         end;
  Header_Set "Content-Type" "application/json";;
  json_Encode (EncFinalizeResponse resp)
    (fun err => log ServerLogger LevelError
                  "Finalize error: unable to encode response" [("error", err)]).
End handlers.

(** ** hookserver.go: the mux, the server and its options *)

Section hookserver.
Context `{JSONEncoder}.

(** [http.Handler], closed over the three implementations of the package. *)
Inductive Handler :=
| SyncHandler (sh : syncHandler)
| FinalizeHandler (fh : finalizeHandler)
| CustomizeHandler (ch : customizeHandler).

Definition Handler_ServeHTTP (ord : MapOrder) (h : Handler) (r : Request) : M unit :=
  match h with
  | SyncHandler sh => syncHandler_ServeHTTP ord sh r
  | FinalizeHandler fh => finalizeHandler_ServeHTTP ord fh r
  | CustomizeHandler ch => customizeHandler_ServeHTTP ch r
  end.

(** A [ServeMux] pattern "METHOD /path", cut at its first blank as
    [net/http] does; a pattern without a blank has no method. *)
Record Pattern := {
  pat_method : string;
  pat_path : string
}.

Definition is_blank (c : ascii) : bool :=
  bool_decide (c = " "%char) || bool_decide (c = "009"%char).

Fixpoint trim_left (s : string) : string :=
  match s with
  | String c r => if is_blank c then trim_left r else s
  | EmptyString => EmptyString
  end.

Fixpoint cut_blank (s : string) : option (string * string) :=
  match s with
  | EmptyString => None
  | String c r =>
      if is_blank c then Some (EmptyString, trim_left r)
      else prod_map (String c) id <$> cut_blank r
  end.

Definition parsePattern (s : string) : Pattern :=
  match cut_blank s with
  | Some (m, rest) => {| pat_method := m; pat_path := rest |}
  | None => {| pat_method := ""; pat_path := s |}
  end.

#[global] Instance Pattern_eq_dec : EqDecision Pattern.
Proof. solve_decision. Defined.

(** [http.ServeMux], as far as this server uses it: literal paths, matched
    exactly. *)
Definition ServeMux : Type := list (Pattern * Handler).

(** [mux.Handle] panics ([None]) when the pattern is already registered. *)
Definition ServeMux_Handle (pattern : string) (h : Handler) (mux : ServeMux)
    : option ServeMux :=
  let pat := parsePattern pattern in
  if decide (pat ∈ mux.*1) then None else Some (mux ++ [(pat, h)]).

Definition matches_path (r : Request) (e : Pattern * Handler) : Prop :=
  pat_path e.1 = req_path r.

Definition matches (r : Request) (e : Pattern * Handler) : Prop :=
  matches_path r e ∧ (pat_method e.1 = "" ∨ pat_method e.1 = req_method r).

#[global] Instance matches_path_dec r e : Decision (matches_path r e).
Proof. unfold matches_path. apply _. Defined.

#[global] Instance matches_dec r e : Decision (matches r e).
Proof. unfold matches. apply _. Defined.

Fixpoint join_comma (l : list string) : string :=
  match l with
  | [] => EmptyString
  | [a] => a
  | a :: rest => a +:+ ", " +:+ join_comma rest
  end.

(** [mux.ServeHTTP]: the handler registered for the method and path; 405
    with an [Allow] header when the path is registered for other methods
    only; 404 otherwise. *)
Definition ServeMux_ServeHTTP (ord : MapOrder) (mux : ServeMux) (r : Request) : M unit :=
  match list_find (matches r) mux with
  | Some (_, (_, h)) => Handler_ServeHTTP ord h r
  | None =>
      match filter (matches_path r) mux with
      | [] => http_Error "404 page not found" StatusNotFound
      | allowed =>
          Header_Set "Allow" (join_comma (pat_method <$> allowed.*1));;
          http_Error (StatusText StatusMethodNotAllowed) StatusMethodNotAllowed
      end
  end.

(** [http.Server] as [ListenAndServe] builds it. *)
Record http_Server := {
  Server_Addr : string;
  Server_Handler : ServeMux
}.

Record HookServer := {
  addr : string;
  mux : ServeMux;
  server : option http_Server;
  logger : slog_Logger;
  debug : bool
}.

(** A functional option; [None] is a panic raised while it runs. *)
Definition Option : Type := HookServer → option HookServer.
Definition CompositeHook : Type := Option.

Definition NewHookServer (opts : list Option) : option HookServer :=
  foldl (fun hs opt => hs ≫= opt)
    (Some {| addr := ":8080"; mux := []; server := None;
             logger := slog_Default; debug := false |})
    opts.

Definition Addr (a : string) : Option := fun hs =>
  Some {| addr := a; mux := mux hs; server := server hs;
          logger := logger hs; debug := debug hs |}.

Definition Logger (l : slog_Logger) : Option := fun hs =>
  Some {| addr := addr hs; mux := mux hs; server := server hs;
          logger := l; debug := debug hs |}.

Definition CompositeController (hooks : list CompositeHook) : Option := fun hs =>
  foldl (fun hs hook => hs ≫= hook) (Some hs) hooks.

Definition hook_path (kind : string) (gvr : GroupVersionResource) : string :=
  let resource := GVR_GroupResource_String gvr +:+ "/" +:+ GVR_Version gvr in
  "/hooks/" +:+ kind +:+ "/" +:+ resource.

Definition register (path : string) (h : Handler) : Option := fun hs =>
  mux' ← ServeMux_Handle ("POST " +:+ path) h (mux hs);
  Some {| addr := addr hs; mux := mux'; server := server hs;
          logger := logger hs; debug := debug hs |}.

Definition SyncHook (P : TypeParam) (gvr : GroupVersionResource) (syncer : SyncerFunc)
    : CompositeHook := fun hs =>
  register (hook_path "sync" gvr)
    (SyncHandler {| sync_P := P;
                    sync_decoder := UniversalDecoder;
                    sync_encoder := LegacyCodec (GVR_GroupVersion gvr);
                    sync_syncer := syncer;
                    sync_logger := logger hs |}) hs.

Definition FinalizeHook (P : TypeParam) (gvr : GroupVersionResource)
    (finalizer : FinalizeFunc) : CompositeHook := fun hs =>
  register (hook_path "finalize" gvr)
    (FinalizeHandler {| finalize_P := P;
                        finalize_decoder := UniversalDecoder;
                        finalize_finalizer := finalizer;
                        finalize_logger := logger hs |}) hs.

Definition CustomizeHook (P : TypeParam) (gvr : GroupVersionResource)
    (customizer : CustomizeFunc) : CompositeHook := fun hs =>
  register (hook_path "customize" gvr)
    (CustomizeHandler {| customize_P := P;
                         customize_decoder := UniversalDecoder;
                         customize_customizer := customizer;
                         customize_logger := logger hs |}) hs.

(** What a server method does besides returning: the records it logs and
    the contexts with which it calls [Shutdown] on the [http.Server]. *)
Record Effects := {
  eff_logs : list LogRecord;
  eff_shutdowns : list context_Context
}.

(** [ListenAndServe] up to the point where it blocks in the [http.Server]:
    the server is created and stored. *)
Definition ListenAndServe (hs : HookServer) : HookServer * Effects :=
  ({| addr := addr hs; mux := mux hs;
      server := Some {| Server_Addr := addr hs; Server_Handler := mux hs |};
      logger := logger hs; debug := debug hs |},
   {| eff_logs := [{| log_sink := ServerLogger; log_level := LevelInfo;
                      log_msg := "Starting HookServer at %s";
                      log_attrs := [("!BADKEY", addr hs)] |}];
      eff_shutdowns := [] |}).

(** [Shutdown] *)
Definition Shutdown (ctx : context_Context) (hs : HookServer) : Effects * option string :=
  match server hs with
  | Some _ =>
      ({| eff_logs := [{| log_sink := ServerLogger; log_level := LevelInfo;
                          log_msg := "Shutting down HookServer at %s";
                          log_attrs := [("!BADKEY", addr hs)] |}];
          eff_shutdowns := [ctx] |},
       httpServer_Shutdown ctx)
  | None => ({| eff_logs := []; eff_shutdowns := [] |}, None)
  end.

(** One request served by the server's mux, from a fresh response writer. *)
Definition serve (ord : MapOrder) (hs : HookServer) (r : Request) : World :=
  run (ServeMux_ServeHTTP ord (mux hs) r).
End hookserver.

(** ** What the child loops compute *)

Section children.
Context `{JSONEncoder}.

Implicit Types decoder : RawMessage → result (Object * GroupVersionKind).

(** The child a raw blob contributes to the bucket of [gvk], if any: it
    must decode, to that kind, into a [client.Object]. *)
Definition decodes_to decoder (gvk : GroupVersionKind) (raw : RawMessage) : option Object :=
  match decoder raw with
  | inl (obj, g) =>
      if isClientObject obj && bool_decide (g = gvk) then Some obj else None
  | inr _ => None
  end.

(** A blob is well-formed when it contributes a child, malformed otherwise. *)
Definition well_formed decoder (raw : RawMessage) : bool :=
  match decoder raw with
  | inl (obj, _) => isClientObject obj
  | inr _ => false
  end.

(** The raw children held by the children map, each once, in the map's own
    enumeration. *)
Definition items (children : gmap string (gmap string RawMessage)) : list RawMessage :=
  map_to_list children ≫= fun kv => (map_to_list kv.2).*2.

(** The raw children in the order in which the two loops visit them. *)
Definition visit (ord : MapOrder) (children : gmap string (gmap string RawMessage))
    : list RawMessage :=
  range_kinds ord children ≫= fun kv => (range_names ord kv.1 kv.2).*2.

(** The raw children in the order in which they stand on the wire. *)
Definition wire_items (e : Envelope) : list RawMessage :=
  default [] (wire_children e) ≫= fun kv => kv.2.*2.

(** One iteration of the loop on the Child Set alone. *)
Definition observe decoder (cs : ChildSet) (raw : RawMessage) : ChildSet :=
  match decoder raw with
  | inl (obj, g) => if isClientObject obj then <[g := cs !!! g ++ [obj]]> cs else cs
  | inr _ => cs
  end.

(** The record one iteration logs: none for a well-formed child. *)
Definition skip_log decoder (msg_decode msg_assert : string) (raw : RawMessage)
    : list LogRecord :=
  match decoder raw with
  | inr err =>
      [{| log_sink := ServerLogger; log_level := LevelError; log_msg := msg_decode;
          log_attrs := [("error", err); ("child", string_of_raw raw)] |}]
  | inl (obj, _) =>
      if isClientObject obj then []
      else [{| log_sink := ServerLogger; log_level := LevelError; log_msg := msg_assert;
               log_attrs := [("child", string_of_raw raw)] |}]
  end.

(** The value of a record's "child" attribute. *)
Definition child_attr (rec : LogRecord) : option string :=
  (fun ikv => ikv.2.2) <$> list_find (fun kv => kv.1 = "child") (log_attrs rec).

(** The number of children in a Child Set. *)
Definition child_count (cs : ChildSet) : nat :=
  length (map_to_list cs ≫= fun kv => kv.2).

Definition with_logs (w : World) (l : list LogRecord) : World :=
  {| writer := writer w; logs := logs w ++ l; calls := calls w |}.

(** A response that cannot be encoded: its status or one of its children. *)
Definition status_unencodable (encoder : Object → result RawMessage) (resp : SyncResponse)
    : Prop :=
  is_error (encoder (SyncResponse_Status resp)).

Definition child_unencodable (encoder : Object → result RawMessage) (resp : SyncResponse)
    : Prop :=
  ∃ gvk objs obj, SyncResponse_Children resp !! gvk = Some objs ∧
                  obj ∈ objs ∧ is_error (encoder obj).
End children.

(** ** The handlers' outcomes, stage by stage

    A closed form of each [ServeHTTP]: the world it leaves, written as a
    case analysis on the pure stages.  The handlers above are shown to
    produce exactly these worlds. *)

Section outcomes.
Context `{JSONEncoder}.

Definition with_call (w : World) (c : Call) : World :=
  {| writer := writer w; logs := logs w; calls := calls w ++ [c] |}.

(** The world after [writeError] and the [return] that follows it. *)
Definition failed (w : World) (code : Z) (err : string) (logger : slog_Logger) : World :=
  (writeError code err logger w).2.

(** The world after the content type is set and the value encoded. *)
Definition answered (w : World) (v : EncodedValue)
    (msg : string → string) (attrs : string → list (string * string)) : World :=
  ((Header_Set "Content-Type" "application/json";;
    json_Encode v (fun err => log ServerLogger LevelError (msg err) (attrs err))) w).2.

Fixpoint encode_all (encoder : Object → result RawMessage) (objs : list Object)
    (rawList : list RawMessage) : result (list RawMessage) :=
  match objs with
  | [] => inl rawList
  | obj :: rest =>
      match encoder obj with
      | inr err => inr err
      | inl data => encode_all encoder rest (rawList ++ [data])
      end
  end.

Fixpoint encode_buckets (encoder : Object → result RawMessage)
    (l : list (GroupVersionKind * list Object))
    (desiredChildren : gmap string (list RawMessage))
    : result (gmap string (list RawMessage)) :=
  match l with
  | [] => inl desiredChildren
  | (gvk, objs) :: rest =>
      match encode_all encoder objs [] with
      | inr err => inr err
      | inl rawList =>
          encode_buckets encoder rest (<[KeyForGVK gvk := rawList]> desiredChildren)
      end
  end.

(** The children map a request carries after JSON decoding. *)
Definition children_of (e : Envelope) : gmap string (gmap string RawMessage) :=
  default ∅ (rawCompositeRequest_Children (decode_rawCompositeRequest e)).

(** The Child Set the loops assemble. *)
Definition observed (ord : MapOrder)
    (decoder : RawMessage → result (Object * GroupVersionKind)) (e : Envelope) : ChildSet :=
  foldl (observe decoder) ∅ (visit ord (children_of e)).

(** The request the sync handler hands to the syncer. *)
Definition sync_request (ord : MapOrder) (sh : syncHandler) (e : Envelope) (parent : Object)
    : SyncRequest :=
  {| SyncRequest_Parent := parent;
     SyncRequest_Children := observed ord (sync_decoder sh) e;
     SyncRequest_Finalizing := wire_finalizing e |}.

Definition sync_outcome (ord : MapOrder) (sh : syncHandler) (r : Request) : World :=
  match req_body r with
  | inr err =>
      failed World0 StatusBadRequest
        ("SyncHook: error decoding request: " +:+ err) (sync_logger sh)
  | inl e =>
      match sync_decoder sh (wire_parent e) with
      | inr err =>
          failed World0 StatusBadRequest
            ("SyncHook: error decoding parent: " +:+ err) (sync_logger sh)
      | inl (p, _) =>
          if sync_P sh p then
            let req := sync_request ord sh e p in
            let w :=
              with_call
                (with_logs World0
                   (visit ord (children_of e) ≫=
                      skip_log (sync_decoder sh)
                        "SyncHook: error decoding child"
                        "SyncHook: type assertion failure: child is not a client.Object"))
                (SyncCall req) in
            match Sync (sync_syncer sh) req with
            | inr err =>
                failed w StatusInternalServerError
                  ("SyncHook: handler error: " +:+ err) (sync_logger sh)
            | inl resp =>
                match sync_encoder sh (SyncResponse_Status resp) with
                | inr err =>
                    failed w StatusInternalServerError
                      ("SyncHook: error encoding status: " +:+ err) (sync_logger sh)
                | inl statusBytes =>
                    match encode_buckets (sync_encoder sh)
                            (range_desired ord (SyncResponse_Children resp)) ∅ with
                    | inr err =>
                        failed w StatusInternalServerError
                          ("SyncHook: error encoding child: " +:+ err) (sync_logger sh)
                    | inl desiredChildren =>
                        answered w
                          (EncRawCompositeResponse
                             {| rawCompositeResponse_Status := statusBytes;
                                rawCompositeResponse_Children := desiredChildren;
                                rawCompositeResponse_Finalized := false |})
                          (fun err => "SyncHook: error encoding response: " +:+ err)
                          (fun _ => [])
                    end
                end
            end
          else
            failed World0 StatusBadRequest
              "SyncHook: type assertion failure: parent" (sync_logger sh)
      end
  end.

Definition finalize_outcome (ord : MapOrder) (fh : finalizeHandler) (r : Request) : World :=
  match req_body r with
  | inr err =>
      failed World0 StatusBadRequest
        ("FinalizeHook: error decoding request: " +:+ err) (finalize_logger fh)
  | inl e =>
      match finalize_decoder fh (wire_parent e) with
      | inr err =>
          failed World0 StatusBadRequest
            ("FinalizeHook: error decoding parent: " +:+ err) (finalize_logger fh)
      | inl (p, _) =>
          if finalize_P fh p then
            let req := {| FinalizeRequest_Parent := p; FinalizeRequest_Children := ∅ |} in
            let w :=
              with_call
                (with_logs World0
                   (visit ord (children_of e) ≫=
                      skip_log (finalize_decoder fh)
                        "Finalize error: unable to decoding child"
                        "Finalize error: child is not a client.Object"))
                (FinalizeCall req) in
            match Finalize (finalize_finalizer fh) req with
            | inr err =>
                failed w StatusInternalServerError
                  ("FinalizeHook: FinalizeHandler failed with error: " +:+ err)
                  (finalize_logger fh)
            | inl resp =>
                answered w (EncFinalizeResponse resp)
                  (fun _ => "Finalize error: unable to encode response")
                  (fun err => [("error", err)])
            end
          else
            failed World0 StatusBadRequest
              "FinalizeHook: type assertion failure for parent" (finalize_logger fh)
      end
  end.

Definition customize_outcome (ch : customizeHandler) (r : Request) : World :=
  match req_body r with
  | inr err =>
      failed World0 StatusBadRequest
        ("CustomizeHook: error decoding request: " +:+ err) (customize_logger ch)
  | inl e =>
      match customize_decoder ch (wire_parent e) with
      | inr err =>
          failed World0 StatusBadRequest
            ("CustomizeHook: error decoding parent: " +:+ err) (customize_logger ch)
      | inl (p, _) =>
          if customize_P ch p then
            let req := {| CustomizeRequest_Controller := wire_controller e;
                          CustomizeRequest_Parent := p |} in
            let w := with_call World0 (CustomizeCall req) in
            match Customize (customize_customizer ch) req with
            | inr err =>
                failed w StatusInternalServerError
                  ("CustomizeHook: CustomizeHandler failed with error: " +:+ err)
                  (customize_logger ch)
            | inl resp =>
                answered w (EncCustomizeResponse resp)
                  (fun _ => "CustomizeHook: error encoding response")
                  (fun err => [("error", err)])
            end
          else
            failed World0 StatusBadRequest
              "CustomizeHook: type assertion failure for parent" (customize_logger ch)
      end
  end.
End outcomes.

(** ** Vocabulary of the specification *)

Section vocabulary.
Context `{JSONEncoder}.

Definition malformed (decoder : RawMessage → result (Object * GroupVersionKind))
    (raw : RawMessage) : bool :=
  negb (well_formed decoder raw).

(** The parent type an endpoint was registered for, and its decoder. *)
Definition Handler_P (h : Handler) : TypeParam :=
  match h with
  | SyncHandler sh => sync_P sh
  | FinalizeHandler fh => finalize_P fh
  | CustomizeHandler ch => customize_P ch
  end.

Definition Handler_decoder (h : Handler) : RawMessage → result (Object * GroupVersionKind) :=
  match h with
  | SyncHandler sh => sync_decoder sh
  | FinalizeHandler fh => finalize_decoder fh
  | CustomizeHandler ch => customize_decoder ch
  end.

(** The request assembled for the user's handler of an endpoint, and
    whether that handler answers it with an error. *)
Definition handler_fails (ord : MapOrder) (h : Handler) (e : Envelope) (parent : Object)
    : Prop :=
  match h with
  | SyncHandler sh => is_error (Sync (sync_syncer sh) (sync_request ord sh e parent))
  | FinalizeHandler fh =>
      is_error (Finalize (finalize_finalizer fh)
                  {| FinalizeRequest_Parent := parent; FinalizeRequest_Children := ∅ |})
  | CustomizeHandler ch =>
      is_error (Customize (customize_customizer ch)
                  {| CustomizeRequest_Controller := wire_controller e;
                     CustomizeRequest_Parent := parent |})
  end.

(** The encoding of the status or of a child through the Type Catalog
    ([runtime.Encode]) fails.  The sync handler is the one handler that
    encodes through the Type Catalog before it answers. *)
Definition catalog_encoding_fails (ord : MapOrder) (h : Handler) (e : Envelope)
    (parent : Object) : Prop :=
  ∃ sh resp, h = SyncHandler sh ∧
             Sync (sync_syncer sh) (sync_request ord sh e parent) = inl resp ∧
             (status_unencodable (sync_encoder sh) resp ∨
              child_unencodable (sync_encoder sh) resp).

(** The value a handler hands to [json.Encode], once the user's code and,
    for sync, the Type Catalog have succeeded.  The finalize handler hands
    over the typed response: there the status and the children are encoded
    by [json.Encode] and by nothing else. *)
Definition Handler_value (ord : MapOrder) (h : Handler) (e : Envelope) (parent : Object)
    : option EncodedValue :=
  match h with
  | SyncHandler sh =>
      match Sync (sync_syncer sh) (sync_request ord sh e parent) with
      | inl resp =>
          match sync_encoder sh (SyncResponse_Status resp) with
          | inl statusBytes =>
              match encode_buckets (sync_encoder sh)
                      (range_desired ord (SyncResponse_Children resp)) ∅ with
              | inl desiredChildren =>
                  Some (EncRawCompositeResponse
                          {| rawCompositeResponse_Status := statusBytes;
                             rawCompositeResponse_Children := desiredChildren;
                             rawCompositeResponse_Finalized := false |})
              | inr _ => None
              end
          | inr _ => None
          end
      | inr _ => None
      end
  | FinalizeHandler fh =>
      match Finalize (finalize_finalizer fh)
              {| FinalizeRequest_Parent := parent; FinalizeRequest_Children := ∅ |} with
      | inl resp => Some (EncFinalizeResponse resp)
      | inr _ => None
      end
  | CustomizeHandler ch =>
      match Customize (customize_customizer ch)
              {| CustomizeRequest_Controller := wire_controller e;
                 CustomizeRequest_Parent := parent |} with
      | inl resp => Some (EncCustomizeResponse resp)
      | inr _ => None
      end
  end.

(** [json.Encode] refuses that value. *)
Definition json_encoding_fails (ord : MapOrder) (h : Handler) (e : Envelope)
    (parent : Object) : Prop :=
  ∃ v, Handler_value ord h e parent = Some v ∧ is_Some (json_Encode_error v).

(** The conditions of the status-code table, each at its stage of the
    pipeline. *)
Definition envelope_unparseable (r : Request) : Prop := is_error (req_body r).

Definition parent_undecodable (h : Handler) (r : Request) : Prop :=
  ∃ e, req_body r = inl e ∧ is_error (Handler_decoder h (wire_parent e)).

Definition type_mismatch (h : Handler) (r : Request) : Prop :=
  ∃ e p g, req_body r = inl e ∧ Handler_decoder h (wire_parent e) = inl (p, g) ∧
           Handler_P h p = false.

Definition assembled (h : Handler) (r : Request) (e : Envelope) (parent : Object) : Prop :=
  ∃ g, req_body r = inl e ∧ Handler_decoder h (wire_parent e) = inl (parent, g) ∧
       Handler_P h parent = true.

Definition handler_error (ord : MapOrder) (h : Handler) (r : Request) : Prop :=
  ∃ e parent, assembled h r e parent ∧ handler_fails ord h e parent.

Definition catalog_encode_failure (ord : MapOrder) (h : Handler) (r : Request) : Prop :=
  ∃ e parent, assembled h r e parent ∧ catalog_encoding_fails ord h e parent.

Definition json_encode_failure (ord : MapOrder) (h : Handler) (r : Request) : Prop :=
  ∃ e parent, assembled h r e parent ∧ json_encoding_fails ord h e parent.

(** The two families of the table. *)
Definition bad_request (h : Handler) (r : Request) : Prop :=
  envelope_unparseable r ∨ parent_undecodable h r ∨ type_mismatch h r.

Definition server_error (ord : MapOrder) (h : Handler) (r : Request) : Prop :=
  handler_error ord h r ∨ catalog_encode_failure ord h r.

(** A mux as the hook options build it: every pattern is a POST pattern
    and no pattern is registered twice. *)
Definition hooks_only (mux : ServeMux) : Prop :=
  NoDup mux.*1 ∧ Forall (fun e => pat_method e.1 = "POST") mux.

(** The options this package provides. *)
Inductive provided_hook : CompositeHook → Prop :=
| provided_SyncHook P gvr syncer : provided_hook (SyncHook P gvr syncer)
| provided_FinalizeHook P gvr finalizer : provided_hook (FinalizeHook P gvr finalizer)
| provided_CustomizeHook P gvr customizer : provided_hook (CustomizeHook P gvr customizer).

Inductive provided : Option → Prop :=
| provided_Addr a : provided (Addr a)
| provided_Logger l : provided (Logger l)
| provided_CompositeController hooks :
    Forall provided_hook hooks → provided (CompositeController hooks).

(** What every provided option keeps: the mux holds POST patterns only,
    each once, and no [http.Server] has been created. *)
Definition unstarted (hs : HookServer) : Prop :=
  hooks_only (mux hs) ∧ server hs = None.

Definition no_effects : Effects := {| eff_logs := []; eff_shutdowns := [] |}.
End vocabulary.

(** The reading of the specification that C8 tests: every bucket lists its
    children in the order of the wire. *)
Definition spec_wire_order `{JSONEncoder}
    (decoder : RawMessage → result (Object * GroupVersionKind))
    (e : Envelope) (cs : ChildSet) : Prop :=
  ∀ gvk, cs !!! gvk = omap (decodes_to decoder gvk) (wire_items e).

(** ** A small catalog, for concrete runs

    Three kinds of [client.Object] (a Widget parent, Deployments and
    Services), one object that is not a [client.Object], and a JSON-free
    stand-in for the codecs: a blob is a tag letter, a colon and a name. *)

Module Toy.
Inductive obj :=
| Widget (name : string)
| Deployment (name : string)
| Service (name : string)
| Status (message : string).

Definition WidgetGVK : GroupVersionKind := GVK "example.com" "v1" "Widget".
Definition DeploymentGVK : GroupVersionKind := GVK "apps" "v1" "Deployment".
Definition ServiceGVK : GroupVersionKind := GVK "" "v1" "Service".
Definition StatusGVK : GroupVersionKind := GVK "" "v1" "Status".

Definition bytes (s : string) : RawMessage := list_byte_of_string s.

Definition decode (raw : RawMessage) : result (obj * GroupVersionKind) :=
  match string_of_raw raw with
  | String "W" (String ":" name) => inl (Widget name, WidgetGVK)
  | String "D" (String ":" name) => inl (Deployment name, DeploymentGVK)
  | String "S" (String ":" name) => inl (Service name, ServiceGVK)
  | String "T" (String ":" message) => inl (Status message, StatusGVK)
  | _ => inr "couldn't get version/kind"
  end.

(** Services named "bad" cannot be encoded. *)
Definition encode (_ : GroupVersion) (o : obj) : result RawMessage :=
  match o with
  | Widget name => inl (bytes ("W:" +:+ name))
  | Deployment name => inl (bytes ("D:" +:+ name))
  | Service name =>
      if decide (name = "bad") then inr "no kind is registered"
      else inl (bytes ("S:" +:+ name))
  | Status message => inl (bytes ("T:" +:+ message))
  end.

Definition is_client (o : obj) : bool :=
  match o with Status _ => false | _ => true end.

Definition is_widget (o : obj) : bool :=
  match o with Widget _ => true | _ => false end.

Definition is_deployment (o : obj) : bool :=
  match o with Deployment _ => true | _ => false end.

Definition quiet : slog_Logger := {| Enabled := fun l => match l with LevelDebug => false | _ => true end |}.
Definition verbose : slog_Logger := {| Enabled := fun _ => true |}.

#[global] Instance catalog : Catalog := {|
  Object := obj;
  isClientObject := is_client;
  UniversalDecoder := decode;
  LegacyCodec := encode;
  LabelSelector := unit;
  context_Context := unit;
  httpServer_Shutdown := fun _ => None;
  StatusText := fun code => if decide (code = 405) then "Method Not Allowed" else "";
  slog_Default := quiet
|}.

(** Every response value can be marshalled. *)
#[global] Instance json : JSONEncoder := fun _ => None.

(** The alternative: the typed finalize response, whose [Children] is a map
    keyed by a struct, is refused. *)
Definition strict_json : JSONEncoder := fun v =>
  match v with
  | EncFinalizeResponse _ =>
      Some "json: unsupported type: map[schema.GroupVersionKind][]client.Object"
  | _ => None
  end.

(** Two ways of ranging over the maps: in the enumeration of [gmap], and
    in its reverse. *)
Definition forward : MapOrder := {|
  range_kinds := fun m => map_to_list m;
  range_names := fun _ m => map_to_list m;
  range_desired := fun m => map_to_list m;
  range_kinds_perm := fun m => reflexivity _;
  range_names_perm := fun _ m => reflexivity _;
  range_desired_perm := fun m => reflexivity _
|}.

Definition backward : MapOrder := {|
  range_kinds := fun m => reverse (map_to_list m);
  range_names := fun _ m => reverse (map_to_list m);
  range_desired := fun m => reverse (map_to_list m);
  range_kinds_perm := fun m => reverse_Permutation _;
  range_names_perm := fun _ m => reverse_Permutation _;
  range_desired_perm := fun m => reverse_Permutation _
|}.

(** The handler of the specification's scenario: the parent is echoed as
    the status and one Service is desired. *)
Definition echo : SyncerFunc := fun req =>
  inl {| SyncResponse_Status := SyncRequest_Parent req;
         SyncResponse_Children := {[ ServiceGVK := [Service "w1-svc"] ]} |}.

(** A handler that desires a Service the encoder rejects. *)
Definition careless : SyncerFunc := fun req =>
  inl {| SyncResponse_Status := SyncRequest_Parent req;
         SyncResponse_Children :=
           {[ ServiceGVK := [Service "w1-svc"; Service "bad"] ]} |}.

Definition failing : SyncerFunc := fun _ => inr "backend unavailable".

(** A finalizer that reports the parent finalized and keeps one child. *)
Definition finish : FinalizeFunc := fun req =>
  inl {| FinalizeResponse_Status := FinalizeRequest_Parent req;
         FinalizeResponse_Children := {[ DeploymentGVK := [Deployment "w1-deploy"] ]};
         FinalizeResponse_Finalized := true |}.

Definition related : CustomizeFunc := fun _ =>
  inl {| CustomizeResponse_RelatedResources :=
           [{| ResourceRule_APIVersion := "v1"; ResourceRule_Resource := "services";
               ResourceRule_LabelSelector := None; ResourceRule_Namespace := "";
               ResourceRule_Names := [] |}] |}.

Definition widgets : GroupVersionResource := GVR "example.com" "v1" "widgets".

Definition sh (syncer : SyncerFunc) (logger : slog_Logger) : syncHandler :=
  {| sync_P := is_widget; sync_decoder := decode;
     sync_encoder := encode (GVR_GroupVersion widgets);
     sync_syncer := syncer; sync_logger := logger |}.

Definition fh : finalizeHandler :=
  {| finalize_P := is_widget; finalize_decoder := decode;
     finalize_finalizer := finish; finalize_logger := quiet |}.

Definition ch : customizeHandler :=
  {| customize_P := is_widget; customize_decoder := decode;
     customize_customizer := related; customize_logger := quiet |}.

(** Envelopes: a Widget with two Deployments listed "a" then "b"; the
    same with a truncated blob and a non-[client.Object] between them; a
    Deployment where a Widget is expected. *)
Definition two_children : Envelope :=
  {| wire_parent := bytes "W:w1"; wire_controller := [];
     wire_children :=
       Some [("Deployment.apps/v1", [("a", bytes "D:a"); ("b", bytes "D:b")])];
     wire_finalizing := false |}.

Definition mixed_children : Envelope :=
  {| wire_parent := bytes "W:w1"; wire_controller := [];
     wire_children :=
       Some [("Deployment.apps/v1",
              [("a", bytes "D:a"); ("broken", bytes "{metadata:");
               ("b", bytes "D:b")]);
             ("Status.v1", [("s", bytes "T:ok")]);
             ("Service.v1", [("svc", bytes "S:svc")])];
     wire_finalizing := false |}.

Definition no_children : Envelope :=
  {| wire_parent := bytes "W:w1"; wire_controller := [];
     wire_children := None; wire_finalizing := false |}.

Definition wrong_parent : Envelope :=
  {| wire_parent := bytes "D:w1"; wire_controller := [];
     wire_children := None; wire_finalizing := false |}.

Definition post (path : string) (b : Body) : Request :=
  {| req_method := "POST"; req_path := path; req_body := b |}.

Definition sync_path : string := "/hooks/sync/widgets.example.com/v1".
Definition finalize_path : string := "/hooks/finalize/widgets.example.com/v1".
Definition customize_path : string := "/hooks/customize/widgets.example.com/v1".
End Toy.

(** A server with the three hooks of the Widget resource. *)
Module ToyServer.
Import Toy.

Definition options : list Option :=
  [Addr ":9090";
   CompositeController
     [SyncHook is_widget widgets echo;
      FinalizeHook is_widget widgets finish;
      CustomizeHook is_widget widgets related]].

Definition hs : HookServer :=
  {| addr := ":9090";
     mux :=
       [({| pat_method := "POST"; pat_path := sync_path |},
         SyncHandler (sh echo quiet));
        ({| pat_method := "POST"; pat_path := finalize_path |}, FinalizeHandler fh);
        ({| pat_method := "POST"; pat_path := customize_path |}, CustomizeHandler ch)];
     server := None;
     logger := quiet;
     debug := false |}.
End ToyServer.

(** ** Further vocabulary: resource names *)

Fixpoint has_dot (s : string) : bool :=
  match s with
  | EmptyString => false
  | String c r => if decide (c = "."%char) then true else has_dot r
  end.

(** A resource as Kubernetes names it: no "/" in group, version or
    resource, and no "." in the resource (a group may hold dots). *)
Definition well_named (gvr : GroupVersionResource) : Prop :=
  has_slash (GVR_Group gvr) = false ∧
  has_slash (GVR_Version gvr) = false ∧
  has_slash (GVR_Resource gvr) = false ∧
  has_dot (GVR_Resource gvr) = false.

(** The three kinds of hook path [SyncHook], [FinalizeHook] and
    [CustomizeHook] build. *)
Definition hook_kinds : list string := ["sync"; "finalize"; "customize"].

(** ** Further vocabulary: the answers of a handler *)

Section answers.
Context `{JSONEncoder}.

(** The logger an endpoint was registered with. *)
Definition Handler_logger (h : Handler) : slog_Logger :=
  match h with
  | SyncHandler sh => sync_logger sh
  | FinalizeHandler fh => finalize_logger fh
  | CustomizeHandler ch => customize_logger ch
  end.

(** The headers [http.Error] leaves on a fresh response writer. *)
Definition error_header : gmap string string :=
  <["X-Content-Type-Options" := "nosniff"]>
    (<["Content-Type" := "text/plain; charset=utf-8"]> (delete "Content-Length" ∅)).

(** The record [writeError] sends to the default logger. *)
Definition error_record (detail : string) : LogRecord :=
  {| log_sink := DefaultLogger; log_level := LevelError;
     log_msg := "Error: " +:+ detail; log_attrs := [] |}.

(** The text [writeError] puts in the body. *)
Definition error_text (logger : slog_Logger) (code : Z) (detail : string) : string :=
  (if Enabled logger LevelDebug then category code +:+ ": " +:+ detail
   else category code) +:+ newline.

(** The sync handler as [SyncHook] builds it for a server. *)
Definition registered_syncHandler (P : TypeParam) (gvr : GroupVersionResource)
    (syncer : SyncerFunc) (hs : HookServer) : syncHandler :=
  {| sync_P := P;
     sync_decoder := UniversalDecoder;
     sync_encoder := LegacyCodec (GVR_GroupVersion gvr);
     sync_syncer := syncer;
     sync_logger := logger hs |}.

(** The call an endpoint makes into the user's code once the request is
    assembled. *)
Definition Handler_call (ord : MapOrder) (h : Handler) (e : Envelope) (parent : Object)
    : Call :=
  match h with
  | SyncHandler sh => SyncCall (sync_request ord sh e parent)
  | FinalizeHandler fh =>
      FinalizeCall {| FinalizeRequest_Parent := parent; FinalizeRequest_Children := ∅ |}
  | CustomizeHandler ch =>
      CustomizeCall {| CustomizeRequest_Controller := wire_controller e;
                       CustomizeRequest_Parent := parent |}
  end.
End answers.

(** ** The earlier http_handlers.go (package [controller/composite])

    The sync handler as it stood when finalize requests were served by it:
    the children of a kind arrive as a JSON array, and the response carries
    the handler's [Finalized] flag.  [writeError] and
    [rawCompositeResponse] are the ones above; [composite.SyncRequest] has
    the fields of [SyncRequest]. *)

Module legacy.
Section legacy.
Context `{JSONEncoder}.

(** [rawCompositeRequest]: [Children] is [map[string][]json.RawMessage]. *)
Record rawCompositeRequest := {
  rawCompositeRequest_Parent : RawMessage;
  rawCompositeRequest_Children : option (gmap string (list RawMessage));
  rawCompositeRequest_Finalizing : bool
}.

(** The members of the body on the wire. *)
Record Envelope := {
  wire_parent : RawMessage;
  wire_children : option (list (string * list RawMessage));
  wire_finalizing : bool
}.

Record Request := {
  req_method : string;
  req_path : string;
  req_body : result Envelope
}.

Definition decode_rawCompositeRequest (e : Envelope) : rawCompositeRequest :=
  {| rawCompositeRequest_Parent := wire_parent e;
     rawCompositeRequest_Children := json_object_to_map <$> wire_children e;
     rawCompositeRequest_Finalizing := wire_finalizing e |}.

(** [composite.CompositeResponse] *)
Record CompositeResponse := {
  CompositeResponse_Status : Object;
  CompositeResponse_Children : ChildSet;
  CompositeResponse_Finalized : bool
}.

(** [composite.SyncHandler]: a function type. *)
Definition SyncHandler : Type := SyncRequest → result CompositeResponse.

(** The orders of the two [range] loops over Go maps: the kind-string map of
    the request and the buckets of the response. *)
Record MapOrder := {
  range_lists : gmap string (list RawMessage) → list (string * list RawMessage);
  range_desired : ChildSet → list (GroupVersionKind * list Object);
  range_lists_perm : ∀ m, range_lists m ≡ₚ map_to_list m;
  range_desired_perm : ∀ m, range_desired m ≡ₚ map_to_list m
}.

Record syncHandler := {
  sync_P : TypeParam;
  sync_decoder : RawMessage → result (Object * GroupVersionKind);
  sync_encoder : Object → result RawMessage;
  sync_handler : SyncHandler;
  sync_logger : slog_Logger;
  sync_debug : bool
}.

(** The body of the inner child loop. *)
Definition decodeChild (sh : syncHandler) (rawChild : RawMessage)
    (observedChildren : ChildSet) : M ChildSet :=
  match sync_decoder sh rawChild with
  | inr err =>
      log ServerLogger LevelError ("SyncHook: error decoding child: " +:+ err)
        [("child", string_of_raw rawChild)];;
      mret observedChildren
  | inl (childObj, childGVK) =>
      if isClientObject childObj then
        mret (<[childGVK := observedChildren !!! childGVK ++ [childObj]]> observedChildren)
      else
        log ServerLogger LevelError "SyncHook: type assertion failure for child"
          [("child", string_of_raw rawChild)];;
        mret observedChildren
  end.

(** The outer loop ranges over the map, the inner one over a slice. *)
Definition decodeChildren (ord : MapOrder) (sh : syncHandler)
    (children : option (gmap string (list RawMessage))) : M ChildSet :=
  forM (range_lists ord (default ∅ children))
    (fun '(_, rawList) observedChildren =>
       forM rawList (decodeChild sh) observedChildren)
    ∅.

Definition encodeObjects (sh : syncHandler) (objs : list Object) : M (list RawMessage) :=
  forM objs
    (fun obj rawList =>
       match sync_encoder sh obj with
       | inr err =>
           writeError StatusInternalServerError
             ("SyncHook: error encoding child: " +:+ err) (sync_logger sh);;
           exit
       | inl data => mret (rawList ++ [data])
       end)
    [].

Definition encodeChildren (ord : MapOrder) (sh : syncHandler) (children : ChildSet)
    : M (gmap string (list RawMessage)) :=
  forM (range_desired ord children)
    (fun '(gvk, objs) desiredChildren =>
       let key := KeyForGVK gvk in
       rawList ← encodeObjects sh objs;
       mret (<[key := rawList]> desiredChildren))
    ∅.

(** [syncHandler.ServeHTTP] *)
Definition syncHandler_ServeHTTP (ord : MapOrder) (sh : syncHandler) (r : Request) : M unit :=
  rawReq ← match req_body r with
           | inr err =>
               writeError StatusBadRequest
                 ("SyncHook: error decoding request: " +:+ err) (sync_logger sh);;
               exit
           | inl e => mret (decode_rawCompositeRequest e)
           end;
  p ← match sync_decoder sh (rawCompositeRequest_Parent rawReq) with
      | inr err =>
          writeError StatusBadRequest
            ("SyncHook: error decoding parent: " +:+ err) (sync_logger sh);;
          exit
      | inl (p, _) => mret p
      end;
  parent ← (if sync_P sh p then mret p
            else
              writeError StatusBadRequest
                "SyncHook: type assertion failure for parent" (sync_logger sh);;
              exit);
  observedChildren ← decodeChildren ord sh (rawCompositeRequest_Children rawReq);
  let req := {| SyncRequest_Parent := parent;
                SyncRequest_Children := observedChildren;
                SyncRequest_Finalizing := rawCompositeRequest_Finalizing rawReq |} in
  record_call (SyncCall req);;
  resp ← match sync_handler sh req with
         | inr err =>
             writeError StatusInternalServerError
               ("SyncHook: handler error: " +:+ err) (sync_logger sh);;
             exit
         | inl resp => mret resp
         end;
  statusBytes ← match sync_encoder sh (CompositeResponse_Status resp) with
                | inr err =>
                    writeError StatusInternalServerError
                      ("SyncHook: error encoding status: " +:+ err) (sync_logger sh);;
                    exit
                | inl data => mret data
                end;
  desiredChildren ← encodeChildren ord sh (CompositeResponse_Children resp);
  Header_Set "Content-Type" "application/json";;
  json_Encode
    (EncRawCompositeResponse
       {| rawCompositeResponse_Status := statusBytes;
          rawCompositeResponse_Children := desiredChildren;
          rawCompositeResponse_Finalized := CompositeResponse_Finalized resp |})
    (fun err => log ServerLogger LevelError
                  ("SyncHook: error encoding response: " +:+ err) []).

(** The children map after JSON decoding, and the blobs in the order in
    which the loops visit them: the lists one after the other, each in its
    own order. *)
Definition children_of (e : Envelope) : gmap string (list RawMessage) :=
  default ∅ (rawCompositeRequest_Children (decode_rawCompositeRequest e)).

Definition visit (ord : MapOrder) (children : gmap string (list RawMessage))
    : list RawMessage :=
  range_lists ord children ≫= snd.

(** The record one iteration logs. *)
Definition skip_log (sh : syncHandler) (raw : RawMessage) : list LogRecord :=
  match sync_decoder sh raw with
  | inr err =>
      [{| log_sink := ServerLogger; log_level := LevelError;
          log_msg := "SyncHook: error decoding child: " +:+ err;
          log_attrs := [("child", string_of_raw raw)] |}]
  | inl (obj, _) =>
      if isClientObject obj then []
      else [{| log_sink := ServerLogger; log_level := LevelError;
               log_msg := "SyncHook: type assertion failure for child";
               log_attrs := [("child", string_of_raw raw)] |}]
  end.

(** The Child Set the loops assemble and the request handed to the handler. *)
Definition observed (ord : MapOrder) (sh : syncHandler) (e : Envelope) : ChildSet :=
  foldl (observe (sync_decoder sh)) ∅ (visit ord (children_of e)).

Definition sync_request (ord : MapOrder) (sh : syncHandler) (e : Envelope)
    (parent : Object) : SyncRequest :=
  {| SyncRequest_Parent := parent;
     SyncRequest_Children := observed ord sh e;
     SyncRequest_Finalizing := wire_finalizing e |}.

(** The closed form of [syncHandler.ServeHTTP]. *)
Definition sync_outcome (ord : MapOrder) (sh : syncHandler) (r : Request) : World :=
  match req_body r with
  | inr err =>
      failed World0 StatusBadRequest
        ("SyncHook: error decoding request: " +:+ err) (sync_logger sh)
  | inl e =>
      match sync_decoder sh (wire_parent e) with
      | inr err =>
          failed World0 StatusBadRequest
            ("SyncHook: error decoding parent: " +:+ err) (sync_logger sh)
      | inl (p, _) =>
          if sync_P sh p then
            let req := sync_request ord sh e p in
            let w :=
              with_call
                (with_logs World0 (visit ord (children_of e) ≫= skip_log sh))
                (SyncCall req) in
            match sync_handler sh req with
            | inr err =>
                failed w StatusInternalServerError
                  ("SyncHook: handler error: " +:+ err) (sync_logger sh)
            | inl resp =>
                match sync_encoder sh (CompositeResponse_Status resp) with
                | inr err =>
                    failed w StatusInternalServerError
                      ("SyncHook: error encoding status: " +:+ err) (sync_logger sh)
                | inl statusBytes =>
                    match encode_buckets (sync_encoder sh)
                            (range_desired ord (CompositeResponse_Children resp)) ∅ with
                    | inr err =>
                        failed w StatusInternalServerError
                          ("SyncHook: error encoding child: " +:+ err) (sync_logger sh)
                    | inl desiredChildren =>
                        answered w
                          (EncRawCompositeResponse
                             {| rawCompositeResponse_Status := statusBytes;
                                rawCompositeResponse_Children := desiredChildren;
                                rawCompositeResponse_Finalized :=
                                  CompositeResponse_Finalized resp |})
                          (fun err => "SyncHook: error encoding response: " +:+ err)
                          (fun _ => [])
                    end
                end
            end
          else
            failed World0 StatusBadRequest
              "SyncHook: type assertion failure for parent" (sync_logger sh)
      end
  end.
End legacy.
End legacy.

(** ** Further concrete data on the small catalog *)

Module ToyRuns.
Import Toy.

(** A second resource of the same group. *)
Definition gadgets : GroupVersionResource := GVR "example.com" "v1" "gadgets".

(** The server before any option has run. *)
Definition fresh : HookServer :=
  {| addr := ":8080"; mux := []; server := None; logger := quiet; debug := false |}.

(** The server after [SyncHook] for Widgets alone. *)
Definition synced : HookServer :=
  {| addr := ":8080";
     mux := [({| pat_method := "POST"; pat_path := sync_path |},
              SyncHandler (sh echo quiet))];
     server := None; logger := quiet; debug := false |}.

(** What [echo] and [related] answer for the Widget "w1". *)
Definition echoed : SyncResponse :=
  {| SyncResponse_Status := Widget "w1";
     SyncResponse_Children := {[ ServiceGVK := [Service "w1-svc"] ]} |}.

Definition related_rules : CustomizeResponse :=
  {| CustomizeResponse_RelatedResources :=
       [{| ResourceRule_APIVersion := "v1"; ResourceRule_Resource := "services";
           ResourceRule_LabelSelector := None; ResourceRule_Namespace := "";
           ResourceRule_Names := [] |}] |}.

Definition get (path : string) : Request :=
  {| req_method := "GET"; req_path := path; req_body := inr "EOF" |}.

(** The earlier handler: children of a kind in a list, and a handler that
    reports the parent finalized when the request is a finalizing one. *)
Definition listed : legacy.MapOrder := {|
  legacy.range_lists := fun m => map_to_list m;
  legacy.range_desired := fun m => map_to_list m;
  legacy.range_lists_perm := fun m => reflexivity _;
  legacy.range_desired_perm := fun m => reflexivity _
|}.

Definition finishing : legacy.SyncHandler := fun req =>
  inl {| legacy.CompositeResponse_Status := SyncRequest_Parent req;
         legacy.CompositeResponse_Children := {[ ServiceGVK := [Service "w1-svc"] ]};
         legacy.CompositeResponse_Finalized := SyncRequest_Finalizing req |}.


Definition legacy_sh : legacy.syncHandler :=
  {| legacy.sync_P := is_widget; legacy.sync_decoder := decode;
     legacy.sync_encoder := encode (GVR_GroupVersion widgets);
     legacy.sync_handler := finishing; legacy.sync_logger := quiet;
     legacy.sync_debug := false |}.

Definition listed_children : legacy.Envelope :=
  {| legacy.wire_parent := bytes "W:w1";
     legacy.wire_children :=
       Some [("Deployment.apps/v1", [bytes "D:a"; bytes "{metadata:"; bytes "D:b"]);
             ("Service.v1", [bytes "S:svc"])];
     legacy.wire_finalizing := true |}.

Definition legacy_post (e : legacy.Envelope) : legacy.Request :=
  {| legacy.req_method := "POST"; legacy.req_path := "/sync/widgets";
     legacy.req_body := inl e |}.
End ToyRuns.

(** * Properties *)

(** ** Keys *)

Lemma split_slash_free (s : string) :
  has_slash s = false → split_slash s = [s].
Proof.
  induction s as [|c r IH]; simpl; [done|].
  case_decide; [done|]. intros Hr. by rewrite (IH Hr).
Qed.

Lemma split_slash_app (a r : string) :
  has_slash a = false →
  split_slash (a +:+ "/" +:+ r) = a :: split_slash r.
Proof.
  induction a as [|c a IH]; simpl.
  - intros _. reflexivity.
  - case_decide; [done|]. intros Ha. by rewrite (IH Ha).
Qed.

Lemma append_assoc (a b c : string) : (a +:+ b) +:+ c = a +:+ (b +:+ c).
Proof.
  induction a as [|x a IH]; [reflexivity|].
  change (String x ((a +:+ b) +:+ c) = String x (a +:+ (b +:+ c))). by rewrite IH.
Qed.

Lemma cut_last_free (s : string) : has_slash s = false → cut_last s = None.
Proof.
  induction s as [|c r IH]; simpl; [done|].
  case_decide; [done|]. intros Hr. by rewrite (IH Hr).
Qed.

Lemma cut_last_app (a b : string) :
  has_slash b = false → cut_last (a +:+ "/" +:+ b) = Some (a, b).
Proof.
  intros Hb. induction a as [|c a IH].
  - change ("" +:+ "/" +:+ b) with (String "/" b). simpl.
    by rewrite (cut_last_free b Hb).
  - change (String c a +:+ "/" +:+ b) with (String c (a +:+ "/" +:+ b)). simpl.
    by rewrite IH.
Qed.

Lemma cut_last_Some (s front back : string) :
  cut_last s = Some (front, back) → s = front +:+ "/" +:+ back.
Proof.
  revert front. induction s as [|c r IH]; intros front; simpl; [done|].
  destruct (cut_last r) as [[f b]|] eqn:Hr.
  - intros [= <- <-]. by rewrite (IH f eq_refl).
  - case_decide as Hc; [|done]. intros [= <- <-]. by subst c.
Qed.

Lemma spec_ParseKey_KeyForGVK (gvk : GroupVersionKind) :
  separable gvk → spec_ParseKey (KeyForGVK gvk) = Some gvk.
Proof.
  destruct gvk as [g v k]. intros (Hv & Hk). simpl in *.
  unfold spec_ParseKey, KeyForGVK. simpl. case_decide as Hd.
  - subst g. by rewrite (cut_last_app v k Hk), (cut_last_free v Hv).
  - rewrite <- (append_assoc g "/" (v +:+ "/" +:+ k)).
    rewrite <- (append_assoc (g +:+ "/") v ("/" +:+ k)).
    rewrite (cut_last_app ((g +:+ "/") +:+ v) k Hk).
    rewrite (append_assoc g "/" v), (cut_last_app g v Hv).
    by case_decide.
Qed.

Lemma KeyForGVK_spec_ParseKey (key : string) (gvk : GroupVersionKind) :
  spec_ParseKey key = Some gvk → KeyForGVK gvk = key.
Proof.
  unfold spec_ParseKey.
  destruct (cut_last key) as [[front k]|] eqn:Hkey; [|done].
  apply cut_last_Some in Hkey as ->.
  destruct (cut_last front) as [[g v]|] eqn:Hfront.
  - apply cut_last_Some in Hfront as ->.
    case_decide as Hg; [done|]. intros [= <-].
    unfold KeyForGVK. simpl. case_decide; [done|].
    by rewrite !append_assoc.
  - intros [= <-]. reflexivity.
Qed.

Lemma KeyForGVK_inj_separable (g1 g2 : GroupVersionKind) :
  separable g1 → separable g2 → KeyForGVK g1 = KeyForGVK g2 → g1 = g2.
Proof.
  intros H1 H2 Hk.
  apply (spec_ParseKey_KeyForGVK g1) in H1.
  apply (spec_ParseKey_KeyForGVK g2) in H2.
  congruence.
Qed.

(** ** The child loops *)

Section loops.
Context `{JSONEncoder}.
Implicit Types decoder : RawMessage → result (Object * GroupVersionKind).

Lemma with_logs_nil (w : World) : with_logs w [] = w.
Proof. destruct w. unfold with_logs. simpl. by rewrite app_nil_r. Qed.

Lemma with_logs_app (w : World) (l1 l2 : list LogRecord) :
  with_logs (with_logs w l1) l2 = with_logs w (l1 ++ l2).
Proof. unfold with_logs. simpl. by rewrite app_assoc. Qed.

Lemma decodeChild_run decoder m1 m2 raw cs w :
  decodeChild decoder m1 m2 raw cs w =
  (Some (observe decoder cs raw), with_logs w (skip_log decoder m1 m2 raw)).
Proof.
  unfold decodeChild, observe, skip_log.
  destruct (decoder raw) as [[obj g]|err]; [destruct (isClientObject obj)|];
    try reflexivity.
  by rewrite with_logs_nil.
Qed.

Lemma forM_decodeChild decoder m1 m2 (l : list (string * RawMessage)) cs w :
  forM l (fun '(_, rawChild) => decodeChild decoder m1 m2 rawChild) cs w =
  (Some (foldl (observe decoder) cs l.*2),
   with_logs w (l.*2 ≫= skip_log decoder m1 m2)).
Proof.
  revert cs w. induction l as [|[k raw] l IH]; intros cs w; simpl.
  - by rewrite with_logs_nil.
  - unfold mbind, M_bind at 1. rewrite decodeChild_run, IH, with_logs_app. done.
Qed.

Lemma decodeChildren_run ord decoder m1 m2 children w :
  decodeChildren ord decoder m1 m2 children w =
  (Some (foldl (observe decoder) ∅ (visit ord (default ∅ children))),
   with_logs w (visit ord (default ∅ children) ≫= skip_log decoder m1 m2)).
Proof.
  unfold decodeChildren, visit.
  generalize (range_kinds ord (default ∅ children)).
  generalize (∅ : ChildSet).
  intros cs l. revert cs w. induction l as [|[k rl] l IH]; intros cs w; simpl.
  - by rewrite with_logs_nil.
  - unfold mbind at 1, M_bind at 1. rewrite forM_decodeChild, IH, with_logs_app.
    by rewrite foldl_app, bind_app.
Qed.

Lemma foldl_observe_lookup decoder (l : list RawMessage) (cs : ChildSet) gvk :
  foldl (observe decoder) cs l !!! gvk = cs !!! gvk ++ omap (decodes_to decoder gvk) l.
Proof.
  revert cs. induction l as [|raw l IH]; intros cs; simpl.
  - by rewrite app_nil_r.
  - rewrite IH. unfold observe, decodes_to.
    destruct (decoder raw) as [[obj g]|err]; [|done].
    destruct (isClientObject obj); simpl; [|done].
    case_bool_decide as Hg.
    + subst g. by rewrite lookup_total_insert_eq, <- app_assoc.
    + by rewrite lookup_total_insert_ne.
Qed.

Lemma visit_items ord (children : gmap string (gmap string RawMessage)) :
  visit ord children ≡ₚ items children.
Proof.
  unfold visit, items. rewrite <- (range_kinds_perm ord children).
  induction (range_kinds ord children) as [|[k m] l IH]; simpl; [done|].
  by rewrite IH, (range_names_perm ord k m).
Qed.
End loops.

(** ** Each handler leaves the world of its closed form *)

Section runs.
Context `{JSONEncoder}.

Lemma bind_run {A B : Type} (m : M A) (f : A → M B) (w : World) :
  (m ≫= f) w = match m w with (Some a, w') => f a w' | (None, w') => (None, w') end.
Proof. reflexivity. Qed.

Lemma encodeObjects_run sh objs rawList w :
  forM objs
    (fun obj rawList =>
       match sync_encoder sh obj with
       | inr err =>
           writeError StatusInternalServerError
             ("SyncHook: error encoding child: " +:+ err) (sync_logger sh);;
           exit
       | inl data => mret (rawList ++ [data])
       end) rawList w =
  match encode_all (sync_encoder sh) objs rawList with
  | inl l => (Some l, w)
  | inr err =>
      (None, failed w StatusInternalServerError
               ("SyncHook: error encoding child: " +:+ err) (sync_logger sh))
  end.
Proof.
  revert rawList. induction objs as [|obj objs IH]; intros rawList; simpl; [done|].
  rewrite bind_run. destruct (sync_encoder sh obj) as [data|err].
  - apply IH.
  - reflexivity.
Qed.

Lemma encodeBuckets_run sh (l : list (GroupVersionKind * list Object)) desired w :
  forM l
    (fun '(gvk, objs) desiredChildren =>
       let key := KeyForGVK gvk in
       rawList ← encodeObjects sh objs;
       mret (<[key := rawList]> desiredChildren)) desired w =
  match encode_buckets (sync_encoder sh) l desired with
  | inl d => (Some d, w)
  | inr err =>
      (None, failed w StatusInternalServerError
               ("SyncHook: error encoding child: " +:+ err) (sync_logger sh))
  end.
Proof.
  revert desired. induction l as [|[gvk objs] l IH]; intros desired; simpl; [done|].
  rewrite !bind_run. unfold encodeObjects. rewrite encodeObjects_run.
  destruct (encode_all (sync_encoder sh) objs []) as [rawList|err]; [|done].
  apply IH.
Qed.

Lemma syncHandler_run ord sh r :
  run (syncHandler_ServeHTTP ord sh r) = sync_outcome ord sh r.
Proof.
  unfold run, syncHandler_ServeHTTP, sync_outcome.
  rewrite bind_run.
  destruct (req_body r) as [e|err]; [|reflexivity].
  unfold mret at 1, M_ret at 1. cbv beta iota. rewrite bind_run.
  change (rawCompositeRequest_Parent (decode_rawCompositeRequest e)) with (wire_parent e).
  destruct (sync_decoder sh (wire_parent e)) as [[p g]|err]; [|reflexivity].
  unfold mret at 1, M_ret at 1. cbv beta iota. rewrite bind_run.
  destruct (sync_P sh p); [|reflexivity].
  unfold mret at 1, M_ret at 1. cbv beta iota. rewrite bind_run, decodeChildren_run.
  cbv beta iota. rewrite bind_run.
  change (rawCompositeRequest_Finalizing (decode_rawCompositeRequest e))
    with (wire_finalizing e).
  fold (children_of e). fold (observed ord (sync_decoder sh) e).
  fold (sync_request ord sh e p).
  set (req := sync_request ord sh e p).
  set (w := with_logs World0 _).
  change (record_call (SyncCall req) w) with (Some (), with_call w (SyncCall req)).
  cbv beta iota. rewrite bind_run.
  destruct (Sync (sync_syncer sh) req) as [resp|err]; [|reflexivity].
  change ((mret resp : M SyncResponse) (with_call w (SyncCall req)))
    with (Some resp, with_call w (SyncCall req)).
  cbv beta iota. rewrite bind_run.
  destruct (sync_encoder sh (SyncResponse_Status resp)) as [statusBytes|err];
    [|reflexivity].
  change ((mret statusBytes : M RawMessage) (with_call w (SyncCall req)))
    with (Some statusBytes, with_call w (SyncCall req)).
  cbv beta iota. rewrite bind_run. unfold encodeChildren.
  rewrite encodeBuckets_run.
  destruct (encode_buckets _ _ _) as [desired|err]; reflexivity.
Qed.

Lemma finalizeHandler_run ord fh r :
  run (finalizeHandler_ServeHTTP ord fh r) = finalize_outcome ord fh r.
Proof.
  unfold run, finalizeHandler_ServeHTTP, finalize_outcome.
  rewrite bind_run.
  destruct (req_body r) as [e|err]; [|reflexivity].
  unfold mret at 1, M_ret at 1. cbv beta iota. rewrite bind_run.
  change (rawCompositeRequest_Parent (decode_rawCompositeRequest e)) with (wire_parent e).
  destruct (finalize_decoder fh (wire_parent e)) as [[p g]|err]; [|reflexivity].
  unfold mret at 1, M_ret at 1. cbv beta iota. rewrite bind_run.
  destruct (finalize_P fh p); [|reflexivity].
  unfold mret at 1, M_ret at 1. cbv beta iota. rewrite bind_run, decodeChildren_run.
  cbv beta iota. rewrite bind_run.
  fold (children_of e).
  set (req := {| FinalizeRequest_Parent := p; FinalizeRequest_Children := ∅ |}).
  set (w := with_logs World0 _).
  change (record_call (FinalizeCall req) w) with (Some (), with_call w (FinalizeCall req)).
  cbv beta iota. rewrite bind_run.
  destruct (Finalize (finalize_finalizer fh) req) as [resp|err]; reflexivity.
Qed.

Lemma customizeHandler_run ch r :
  run (customizeHandler_ServeHTTP ch r) = customize_outcome ch r.
Proof.
  unfold run, customizeHandler_ServeHTTP, customize_outcome.
  rewrite bind_run.
  destruct (req_body r) as [e|err]; [|reflexivity].
  unfold mret at 1, M_ret at 1. cbv beta iota. rewrite bind_run.
  change (rawCustomizeRequest_Parent (decode_rawCustomizeRequest e)) with (wire_parent e).
  destruct (customize_decoder ch (wire_parent e)) as [[p g]|err]; [|reflexivity].
  unfold mret at 1, M_ret at 1. cbv beta iota. rewrite bind_run.
  destruct (customize_P ch p); [|reflexivity].
  unfold mret at 1, M_ret at 1. cbv beta iota. rewrite bind_run.
  change (rawCustomizeRequest_Controller (decode_rawCustomizeRequest e))
    with (wire_controller e).
  set (req := {| CustomizeRequest_Controller := _; CustomizeRequest_Parent := p |}).
  change (record_call (CustomizeCall req) World0)
    with (Some (), with_call World0 (CustomizeCall req)).
  cbv beta iota. rewrite bind_run.
  destruct (Customize (customize_customizer ch) req) as [resp|err]; reflexivity.
Qed.
End runs.

(** ** Reading the closed forms *)

Section facts.
Context `{JSONEncoder}.
Implicit Types decoder : RawMessage → result (Object * GroupVersionKind).

Lemma failed_calls w code err lg : calls (failed w code err lg) = calls w.
Proof. reflexivity. Qed.

Lemma failed_logs w code err lg :
  logs (failed w code err lg) =
  logs w ++ [{| log_sink := DefaultLogger; log_level := LevelError;
                log_msg := "Error: " +:+ err; log_attrs := [] |}].
Proof. reflexivity. Qed.

Lemma failed_status w code err lg :
  response_status (writer (failed w code err lg)) = default code (rw_code (writer w)).
Proof. unfold failed, writeError. simpl. by destruct (rw_code (writer w)). Qed.

Lemma failed_body w code err lg :
  rw_body (writer (failed w code err lg)) =
  rw_body (writer w) ++
    [PlainText ((if Enabled lg LevelDebug then category code +:+ ": " +:+ err
                 else category code) +:+ newline)].
Proof. reflexivity. Qed.

Lemma answered_calls w v msg attrs : calls (answered w v msg attrs) = calls w.
Proof. unfold answered, json_Encode. by destruct (json_Encode_error v). Qed.

Lemma answered_logs w v msg attrs :
  logs (answered w v msg attrs) =
  logs w ++ match json_Encode_error v with
            | Some err => [{| log_sink := ServerLogger; log_level := LevelError;
                              log_msg := msg err; log_attrs := attrs err |}]
            | None => []
            end.
Proof.
  unfold answered, json_Encode. destruct (json_Encode_error v); simpl; [done|].
  by rewrite app_nil_r.
Qed.

Lemma answered_status w v msg attrs :
  response_status (writer (answered w v msg attrs)) = response_status (writer w).
Proof.
  unfold answered, json_Encode, response_status.
  destruct (json_Encode_error v); simpl; [done|]. by destruct (rw_code (writer w)).
Qed.

Lemma answered_body w v msg attrs :
  rw_body (writer (answered w v msg attrs)) =
  rw_body (writer w) ++ match json_Encode_error v with
                        | Some _ => []
                        | None => [JSON v]
                        end.
Proof.
  unfold answered, json_Encode. destruct (json_Encode_error v); simpl; [|done].
  by rewrite app_nil_r.
Qed.

(** *** The Child Set *)

Lemma child_attr_skip_log decoder m1 m2 (l : list RawMessage) :
  omap child_attr (l ≫= skip_log decoder m1 m2) =
  string_of_raw <$> filter (fun raw => malformed decoder raw) l.
Proof.
  induction l as [|raw l IH]; [done|].
  rewrite bind_cons, omap_app, IH, filter_cons.
  unfold skip_log, malformed, well_formed.
  destruct (decoder raw) as [[obj g]|err]; [destruct (isClientObject obj)|]; done.
Qed.

Lemma length_skip_log decoder m1 m2 (l : list RawMessage) :
  length (l ≫= skip_log decoder m1 m2) =
  length (filter (fun raw => malformed decoder raw) l).
Proof.
  induction l as [|raw l IH]; [done|].
  rewrite bind_cons, length_app, IH, filter_cons.
  unfold skip_log, malformed, well_formed.
  destruct (decoder raw) as [[obj g]|err]; [destruct (isClientObject obj)|]; done.
Qed.

Lemma skip_log_error decoder m1 m2 (l : list RawMessage) :
  Forall (fun rec => log_sink rec = ServerLogger ∧ log_level rec = LevelError)
    (l ≫= skip_log decoder m1 m2).
Proof.
  induction l as [|raw l IH]; [constructor|].
  rewrite bind_cons. apply Forall_app. split; [|done].
  unfold skip_log.
  destruct (decoder raw) as [[obj g]|err]; [destruct (isClientObject obj)|];
    repeat constructor.
Qed.

Lemma child_count_empty : child_count (∅ : ChildSet) = 0%nat.
Proof. unfold child_count. by rewrite map_to_list_empty. Qed.

Lemma child_count_insert_fresh (cs : ChildSet) g (l : list Object) :
  cs !! g = None → child_count (<[g := l]> cs) = (length l + child_count cs)%nat.
Proof.
  intros Hg. unfold child_count.
  rewrite (map_to_list_insert cs g l Hg). by rewrite bind_cons, length_app.
Qed.

Lemma child_count_append (cs : ChildSet) g (obj : Object) :
  child_count (<[g := cs !!! g ++ [obj]]> cs) = S (child_count cs).
Proof.
  rewrite lookup_total_alt.
  destruct (cs !! g) as [l|] eqn:Hg; simpl.
  - rewrite <- (insert_delete_eq cs g (l ++ [obj])).
    rewrite <- (insert_delete_id cs g l Hg) at 2.
    rewrite !child_count_insert_fresh by apply lookup_delete_eq.
    rewrite length_app. simpl. lia.
  - by rewrite child_count_insert_fresh.
Qed.

Lemma child_count_observe decoder (l : list RawMessage) (cs : ChildSet) :
  child_count (foldl (observe decoder) cs l) =
  (child_count cs + length (filter (fun raw => well_formed decoder raw) l))%nat.
Proof.
  revert cs. induction l as [|raw l IH]; intros cs; simpl; [lia|].
  rewrite IH, filter_cons. unfold observe, well_formed.
  destruct (decoder raw) as [[obj g]|err]; [|simpl; lia].
  destruct (isClientObject obj); simpl; [|lia].
  rewrite child_count_append. lia.
Qed.

Lemma children_absent (e : Envelope) :
  wire_children e = None ∨ wire_children e = Some [] → items (children_of e) = [].
Proof.
  intros Hc.
  assert (children_of e = ∅) as ->.
  { unfold children_of, decode_rawCompositeRequest. cbn [rawCompositeRequest_Children].
    by destruct Hc as [-> | ->]. }
  unfold items. by rewrite map_to_list_empty.
Qed.

Lemma observed_lookup ord decoder e gvk :
  observed ord decoder e !!! gvk = omap (decodes_to decoder gvk) (visit ord (children_of e)).
Proof. unfold observed. rewrite foldl_observe_lookup. by rewrite lookup_total_empty. Qed.

Lemma observed_no_items ord decoder e :
  items (children_of e) = [] → observed ord decoder e = ∅.
Proof.
  intros Hi. unfold observed.
  pose proof (visit_items ord (children_of e)) as Hp. rewrite Hi in Hp.
  apply Permutation_nil_r in Hp. by rewrite Hp.
Qed.

(** Once the parent is accepted, the sync handler calls the syncer once,
    on the assembled request, after logging the skipped children; what
    follows only adds log records and answers 200 or 500. *)
Lemma sync_outcome_assembled ord sh r e p g :
  req_body r = inl e →
  sync_decoder sh (wire_parent e) = inl (p, g) →
  sync_P sh p = true →
  ∃ later,
    calls (sync_outcome ord sh r) = [SyncCall (sync_request ord sh e p)] ∧
    logs (sync_outcome ord sh r) =
      (visit ord (children_of e) ≫=
         skip_log (sync_decoder sh)
           "SyncHook: error decoding child"
           "SyncHook: type assertion failure: child is not a client.Object") ++ later ∧
    (response_status (writer (sync_outcome ord sh r)) = 200 ∨
     response_status (writer (sync_outcome ord sh r)) = 500).
Proof.
  intros Hb Hp HP. unfold sync_outcome. rewrite Hb, Hp, HP. cbv zeta.
  destruct (Sync _ _) as [resp|err].
  - destruct (sync_encoder sh (SyncResponse_Status resp)) as [sb|err].
    + destruct (encode_buckets _ _ _) as [dc|err].
      * eexists. rewrite answered_calls, answered_logs, answered_status.
        split; [done|]. split; [done|]. by left.
      * eexists. rewrite failed_calls, failed_logs, failed_status.
        split; [done|]. split; [done|]. by right.
    + eexists. rewrite failed_calls, failed_logs, failed_status.
      split; [done|]. split; [done|]. by right.
  - eexists. rewrite failed_calls, failed_logs, failed_status.
    split; [done|]. split; [done|]. by right.
Qed.
End facts.

(** ** Request assembly and response encoding *)

Section claims.
Context `{JSONEncoder}.
Implicit Types decoder : RawMessage → result (Object * GroupVersionKind).

(** C8 (as amended).  For every sync request with an accepted parent,
    each kind bucket of the Child Set lists the decoded children of that
    kind in the order in which the handler's two [range] loops visited
    their blobs.  That order is some arrangement of the entries of the
    children map, fixed by Go's map iteration and not by the wire.  The
    syncer is called with this complete Child Set. *)
Theorem children_in_visit_order ord sh r e p g :
  req_body r = inl e →
  sync_decoder sh (wire_parent e) = inl (p, g) →
  sync_P sh p = true →
  let d := sync_decoder sh in
  let w := run (syncHandler_ServeHTTP ord sh r) in
  ∃ cs,
    calls w = [SyncCall {| SyncRequest_Parent := p;
                           SyncRequest_Children := cs;
                           SyncRequest_Finalizing := wire_finalizing e |}] ∧
    (∀ gvk, cs !!! gvk = omap (decodes_to d gvk) (visit ord (children_of e))) ∧
    visit ord (children_of e) ≡ₚ items (children_of e).
Proof.
  intros Hb Hp HP d w. subst w. rewrite syncHandler_run.
  destruct (sync_outcome_assembled ord sh r e p g Hb Hp HP) as (later & Hc & _).
  exists (observed ord d e). split; [exact Hc|]. split.
  - intros gvk. apply observed_lookup.
  - apply visit_items.
Qed.

(** C4 (type-mismatch rejection).  At each of the three endpoints, a
    request whose parent decodes but is not of the parent type the
    endpoint was registered for is answered 400 with a single plain-text
    body, and the user's handler is not called at all. *)
Theorem type_mismatch_rejected ord h r e p g :
  req_body r = inl e →
  Handler_decoder h (wire_parent e) = inl (p, g) →
  Handler_P h p = false →
  let w := run (Handler_ServeHTTP ord h r) in
  response_status (writer w) = 400 ∧
  calls w = [] ∧
  (∃ text, rw_body (writer w) = [PlainText text]).
Proof.
  intros Hb Hp HP w. subst w. destruct h as [sh|fh|ch]; simpl in *.
  - rewrite syncHandler_run. unfold sync_outcome. rewrite Hb, Hp, HP.
    rewrite failed_status, failed_calls, failed_body. eauto.
  - rewrite finalizeHandler_run. unfold finalize_outcome. rewrite Hb, Hp, HP.
    rewrite failed_status, failed_calls, failed_body. eauto.
  - rewrite customizeHandler_run. unfold customize_outcome. rewrite Hb, Hp, HP.
    rewrite failed_status, failed_calls, failed_body. eauto.
Qed.

(** *** Encoding *)

Lemma encode_all_error encoder (objs : list Object) rawList :
  is_error (encode_all encoder objs rawList) ↔ ∃ obj, obj ∈ objs ∧ is_error (encoder obj).
Proof.
  revert rawList. induction objs as [|obj objs IH]; intros rawList; simpl.
  - split; [done|]. intros (obj & Hin & _). by apply elem_of_nil in Hin.
  - destruct (encoder obj) as [data|err] eqn:He.
    + rewrite IH. split.
      * intros (o & Hin & Ho). exists o. split; [by right|done].
      * intros (o & Hin & Ho). apply elem_of_cons in Hin as [->|Hin].
        -- by rewrite He in Ho.
        -- by exists o.
    + split; [|done]. intros _. exists obj. split; [by left|]. by rewrite He.
Qed.

Lemma encode_buckets_error encoder (l : list (GroupVersionKind * list Object)) desired :
  is_error (encode_buckets encoder l desired) ↔
  ∃ gvk objs obj, (gvk, objs) ∈ l ∧ obj ∈ objs ∧ is_error (encoder obj).
Proof.
  revert desired. induction l as [|[gvk objs] l IH]; intros desired; simpl.
  - split; [done|]. intros (? & ? & ? & Hin & _). by apply elem_of_nil in Hin.
  - destruct (encode_all encoder objs []) as [rawList|err] eqn:He.
    + rewrite IH. split.
      * intros (g' & os & o & Hin & Ho). exists g', os, o. split; [by right|done].
      * intros (g' & os & o & Hin & Ho & Herr).
        apply elem_of_cons in Hin as [[= -> ->]|Hin].
        -- assert (is_error (encode_all encoder objs [])) as Hf.
           { apply encode_all_error. eauto. }
           by rewrite He in Hf.
        -- by exists g', os, o.
    + split; [|done]. intros _.
      assert (is_error (encode_all encoder objs [])) as Hf by by rewrite He.
      apply encode_all_error in Hf as (o & Hin & Ho).
      exists gvk, objs, o. split; [by left|done].
Qed.

Lemma encode_buckets_unencodable ord encoder (resp : SyncResponse) :
  is_error (encode_buckets encoder (range_desired ord (SyncResponse_Children resp)) ∅) ↔
  child_unencodable encoder resp.
Proof.
  rewrite encode_buckets_error. unfold child_unencodable.
  split; intros (gvk & objs & obj & Hin & Ho); exists gvk, objs, obj; split; try done.
  - rewrite (range_desired_perm ord) in Hin. by apply elem_of_map_to_list in Hin.
  - rewrite (range_desired_perm ord). by apply elem_of_map_to_list.
Qed.

Lemma sync_status_assembled ord sh r e p g :
  req_body r = inl e →
  sync_decoder sh (wire_parent e) = inl (p, g) →
  sync_P sh p = true →
  let status := response_status (writer (sync_outcome ord sh r)) in
  let answer := Sync (sync_syncer sh) (sync_request ord sh e p) in
  (status = 500 ↔
     is_error answer ∨
     ∃ resp, answer = inl resp ∧
             (status_unencodable (sync_encoder sh) resp ∨
              child_unencodable (sync_encoder sh) resp)) ∧
  (status = 200 ↔
     ∃ resp, answer = inl resp ∧
             ¬ status_unencodable (sync_encoder sh) resp ∧
             ¬ child_unencodable (sync_encoder sh) resp).
Proof.
  intros Hb Hp HP status answer. subst status answer.
  unfold sync_outcome. rewrite Hb, Hp, HP. cbv zeta.
  destruct (Sync _ _) as [resp|err] eqn:Hs.
  - destruct (sync_encoder sh (SyncResponse_Status resp)) as [sb|err] eqn:He.
    + destruct (encode_buckets (sync_encoder sh)
                  (range_desired ord (SyncResponse_Children resp)) ∅) as [dc|err] eqn:Hc.
      * assert (¬ status_unencodable (sync_encoder sh) resp) as Hns.
        { unfold status_unencodable. rewrite He. simpl. tauto. }
        assert (¬ child_unencodable (sync_encoder sh) resp) as Hnc.
        { intros Hf. apply (encode_buckets_unencodable ord) in Hf. by rewrite Hc in Hf. }
        rewrite answered_status. simpl. split; split.
        -- done.
        -- intros [[]|(resp' & [= <-] & [Hf|Hf])]; done.
        -- intros _. by exists resp.
        -- done.
      * assert (child_unencodable (sync_encoder sh) resp) as Hf.
        { apply (encode_buckets_unencodable ord). by rewrite Hc. }
        rewrite failed_status. split; split.
        -- intros _. right. exists resp. split; [done|]. by right.
        -- done.
        -- done.
        -- by intros (resp' & [= <-] & _ & Hn).
    + assert (status_unencodable (sync_encoder sh) resp) as Hf.
      { unfold status_unencodable. by rewrite He. }
      rewrite failed_status. split; split.
      * intros _. right. exists resp. split; [done|]. by left.
      * done.
      * done.
      * by intros (resp' & [= <-] & Hn & _).
  - rewrite failed_status. split; split.
    + intros _. by left.
    + done.
    + done.
    + by intros (resp' & ? & _).
Qed.

(** C1 (child decode isolation).  Take a sync request whose envelope
    parses and whose parent decodes to the registered type, and any order
    in which the handler may range over the children map.  The syncer is
    called exactly once.  The Child Set it receives holds, bucket by
    bucket under the decoded kind, exactly the well-formed children of
    the map, [N] in all.  Each of the [M] malformed children is skipped
    with one record logged through the server's logger, at error level
    and with the raw bytes under "child".  The request never fails on
    their account: it is never answered 400, it is answered 500 exactly
    when the syncer, called on that Child Set, returns an error or the
    status or a child of its response cannot be encoded, and 200 exactly
    when the syncer and the encoder succeed.  An absent or empty children
    map gives the empty Child Set. *)
Theorem child_decode_isolation ord sh r e p g :
  req_body r = inl e →
  sync_decoder sh (wire_parent e) = inl (p, g) →
  sync_P sh p = true →
  let d := sync_decoder sh in
  let its := items (children_of e) in
  let w := run (syncHandler_ServeHTTP ord sh r) in
  ∃ cs skips later,
    let req := {| SyncRequest_Parent := p;
                  SyncRequest_Children := cs;
                  SyncRequest_Finalizing := wire_finalizing e |} in
    calls w = [SyncCall req] ∧
    (∀ gvk, cs !!! gvk ≡ₚ omap (decodes_to d gvk) its) ∧
    child_count cs = length (filter (fun raw => well_formed d raw) its) ∧
    logs w = skips ++ later ∧
    Forall (fun rec => log_sink rec = ServerLogger ∧ log_level rec = LevelError) skips ∧
    omap child_attr skips ≡ₚ string_of_raw <$> filter (fun raw => malformed d raw) its ∧
    length skips = length (filter (fun raw => malformed d raw) its) ∧
    response_status (writer w) ≠ 400 ∧
    (its = [] → cs = ∅) ∧
    (wire_children e = None ∨ wire_children e = Some [] → cs = ∅) ∧
    (response_status (writer w) = 500 ↔
       is_error (Sync (sync_syncer sh) req) ∨
       ∃ resp, Sync (sync_syncer sh) req = inl resp ∧
               (status_unencodable (sync_encoder sh) resp ∨
                child_unencodable (sync_encoder sh) resp)) ∧
    (response_status (writer w) = 200 ↔
       ∃ resp, Sync (sync_syncer sh) req = inl resp ∧
               ¬ status_unencodable (sync_encoder sh) resp ∧
               ¬ child_unencodable (sync_encoder sh) resp).
Proof.
  intros Hb Hp HP d its w. subst w. rewrite syncHandler_run.
  destruct (sync_outcome_assembled ord sh r e p g Hb Hp HP) as (later & Hc & Hl & Hs).
  destruct (sync_status_assembled ord sh r e p g Hb Hp HP) as [H500 H200].
  pose proof (visit_items ord (children_of e)) as Hperm. fold its in Hperm.
  exists (observed ord d e), (visit ord (children_of e) ≫=
    skip_log d "SyncHook: error decoding child"
      "SyncHook: type assertion failure: child is not a client.Object"), later.
  cbv zeta. split; [exact Hc|]. split.
  { intros gvk. rewrite observed_lookup. by rewrite Hperm. }
  split.
  { unfold observed. rewrite child_count_observe, child_count_empty. simpl.
    by rewrite Hperm. }
  split; [exact Hl|]. split; [apply skip_log_error|]. split.
  { rewrite child_attr_skip_log. by rewrite Hperm. }
  split.
  { rewrite length_skip_log. by rewrite Hperm. }
  split.
  { destruct Hs as [-> | ->]; done. }
  split.
  { apply observed_no_items. }
  split.
  { intros Ha. apply observed_no_items. by apply children_absent. }
  split; [exact H500|exact H200].
Qed.

(** C5 (encode asymmetry).  When the syncer's response has a status that
    the encoder rejects, or holds at least one child that the encoder
    rejects, then under every iteration order the request is answered 500
    with one plain-text error body and no JSON payload is written. *)
Theorem encode_failure_is_fatal ord sh r e p g resp :
  req_body r = inl e →
  sync_decoder sh (wire_parent e) = inl (p, g) →
  sync_P sh p = true →
  Sync (sync_syncer sh) (sync_request ord sh e p) = inl resp →
  status_unencodable (sync_encoder sh) resp ∨ child_unencodable (sync_encoder sh) resp →
  let w := run (syncHandler_ServeHTTP ord sh r) in
  response_status (writer w) = 500 ∧
  (∃ text, rw_body (writer w) = [PlainText text]) ∧
  (∀ v, JSON v ∉ rw_body (writer w)).
Proof.
  intros Hb Hp HP Hs Hfail w.
  assert (response_status (writer w) = 500 ∧ ∃ text, rw_body (writer w) = [PlainText text])
    as [Hst [text Hbody]].
  { subst w. rewrite syncHandler_run. unfold sync_outcome. rewrite Hb, Hp, HP. cbv zeta.
    rewrite Hs. unfold status_unencodable in Hfail.
    destruct (sync_encoder sh (SyncResponse_Status resp)) as [sb|err].
    - destruct Hfail as [Hfail|Hfail]; [done|].
      apply (encode_buckets_unencodable ord) in Hfail.
      destruct (encode_buckets _ _ _) as [dc|err]; [done|].
      rewrite failed_status, failed_body. eauto.
    - rewrite failed_status, failed_body. eauto. }
  split; [done|]. split; [eauto|].
  intros v. rewrite Hbody. intros Hin. apply list_elem_of_singleton in Hin. done.
Qed.
End claims.

(** ** The status-code table *)

Section table.
Context `{JSONEncoder}.

Lemma assembled_unique h r e p g e' p' :
  req_body r = inl e →
  Handler_decoder h (wire_parent e) = inl (p, g) →
  assembled h r e' p' → e' = e ∧ p' = p.
Proof.
  intros Hb Hp (g' & Hb' & Hp' & _). rewrite Hb in Hb'. injection Hb' as <-.
  rewrite Hp in Hp'. by injection Hp' as <- <-.
Qed.

Lemma bad_request_not_assembled h r e p :
  bad_request h r → assembled h r e p → False.
Proof.
  intros Hbad (g & Hb & Hp & HP).
  destruct Hbad as [Hu | [(e' & Hb' & Hd) | (e' & p' & g' & Hb' & Hp' & HP')]].
  - unfold envelope_unparseable in Hu. by rewrite Hb in Hu.
  - rewrite Hb in Hb'. injection Hb' as <-. by rewrite Hp in Hd.
  - rewrite Hb in Hb'. injection Hb' as <-. rewrite Hp in Hp'.
    injection Hp' as <- <-. congruence.
Qed.

Lemma server_error_assembled ord h r : server_error ord h r → ∃ e p, assembled h r e p.
Proof. intros [(e & p & Ha & _) | (e & p & Ha & _)]; eauto. Qed.

Lemma Handler_status_assembled ord h r e p g :
  req_body r = inl e →
  Handler_decoder h (wire_parent e) = inl (p, g) →
  Handler_P h p = true →
  let status := response_status (writer (run (Handler_ServeHTTP ord h r))) in
  ((handler_fails ord h e p ∨ catalog_encoding_fails ord h e p) ∧ status = 500) ∨
  (¬ handler_fails ord h e p ∧ ¬ catalog_encoding_fails ord h e p ∧ status = 200).
Proof.
  intros Hb Hp HP status. subst status. destruct h as [sh|fh|ch]; simpl in *.
  - rewrite syncHandler_run. unfold sync_outcome. rewrite Hb, Hp, HP. cbv zeta.
    destruct (Sync _ _) as [resp|err] eqn:Hs.
    + destruct (sync_encoder sh (SyncResponse_Status resp)) as [sb|err] eqn:He.
      * destruct (encode_buckets _ _ _) as [dc|err] eqn:Hc.
        -- right. rewrite answered_status. split; [simpl; tauto|]. split; [|done].
           intros (sh' & resp' & [= <-] & Hs' & [Hf|Hf]);
             rewrite Hs in Hs'; injection Hs' as <-.
           ++ unfold status_unencodable in Hf. by rewrite He in Hf.
           ++ apply (encode_buckets_unencodable ord) in Hf. by rewrite Hc in Hf.
        -- left. rewrite failed_status. split; [|done]. right.
           exists sh, resp. split; [done|]. split; [done|]. right.
           apply (encode_buckets_unencodable ord). by rewrite Hc.
      * left. rewrite failed_status. split; [|done]. right.
        exists sh, resp. split; [done|]. split; [done|].
        left. unfold status_unencodable. by rewrite He.
    + left. rewrite failed_status. split; [|done]. by left.
  - rewrite finalizeHandler_run. unfold finalize_outcome. rewrite Hb, Hp, HP. cbv zeta.
    destruct (Finalize _ _) as [resp|err] eqn:Hs.
    + right. rewrite answered_status. simpl. split; [tauto|]. split; [|done].
      by intros (sh' & resp' & ? & _).
    + left. rewrite failed_status. split; [|done]. by left.
  - rewrite customizeHandler_run. unfold customize_outcome. rewrite Hb, Hp, HP. cbv zeta.
    destruct (Customize _ _) as [resp|err] eqn:Hs.
    + right. rewrite answered_status. simpl. split; [tauto|]. split; [|done].
      by intros (sh' & resp' & ? & _).
    + left. rewrite failed_status. split; [|done]. by left.
Qed.

(** When [json.Encode] refuses the value, the handler only logs: the
    answer is 200 with an empty body. *)
Lemma Handler_json_failure ord h r e p g :
  req_body r = inl e →
  Handler_decoder h (wire_parent e) = inl (p, g) →
  Handler_P h p = true →
  json_encoding_fails ord h e p →
  response_status (writer (run (Handler_ServeHTTP ord h r))) = 200 ∧
  rw_body (writer (run (Handler_ServeHTTP ord h r))) = [].
Proof.
  intros Hb Hp HP (v & Hv & [err Herr]). destruct h as [sh|fh|ch]; simpl in *.
  - rewrite syncHandler_run. unfold sync_outcome. rewrite Hb, Hp, HP. cbv zeta.
    destruct (Sync _ _) as [resp|?]; [|done].
    destruct (sync_encoder sh _) as [sb|?]; [|done].
    destruct (encode_buckets _ _ _) as [dc|?]; [|done].
    injection Hv as <-. by rewrite answered_status, answered_body, Herr.
  - rewrite finalizeHandler_run. unfold finalize_outcome. rewrite Hb, Hp, HP. cbv zeta.
    destruct (Finalize _ _) as [resp|?]; [|done].
    injection Hv as <-. by rewrite answered_status, answered_body, Herr.
  - rewrite customizeHandler_run. unfold customize_outcome. rewrite Hb, Hp, HP. cbv zeta.
    destruct (Customize _ _) as [resp|?]; [|done].
    injection Hv as <-. by rewrite answered_status, answered_body, Herr.
Qed.

Lemma Handler_status ord h r :
  let status := response_status (writer (run (Handler_ServeHTTP ord h r))) in
  (bad_request h r ∧ ¬ server_error ord h r ∧ status = 400) ∨
  (¬ bad_request h r ∧ server_error ord h r ∧ status = 500) ∨
  (¬ bad_request h r ∧ ¬ server_error ord h r ∧ status = 200).
Proof.
  intros status.
  destruct (req_body r) as [e|err] eqn:Hb.
  2:{ left. assert (bad_request h r) as Hbad.
      { left. unfold envelope_unparseable. by rewrite Hb. }
      split; [done|]. split.
      { intros (e' & p' & Ha)%server_error_assembled. eauto using bad_request_not_assembled. }
      subst status. destruct h; simpl.
      - rewrite syncHandler_run. unfold sync_outcome. by rewrite Hb, failed_status.
      - rewrite finalizeHandler_run. unfold finalize_outcome. by rewrite Hb, failed_status.
      - rewrite customizeHandler_run. unfold customize_outcome. by rewrite Hb, failed_status. }
  destruct (Handler_decoder h (wire_parent e)) as [[p g]|err] eqn:Hp.
  2:{ left. assert (bad_request h r) as Hbad.
      { right; left. exists e. split; [done|]. by rewrite Hp. }
      split; [done|]. split.
      { intros (e' & p' & Ha)%server_error_assembled. eauto using bad_request_not_assembled. }
      subst status. destruct h; simpl in *.
      - rewrite syncHandler_run. unfold sync_outcome. by rewrite Hb, Hp, failed_status.
      - rewrite finalizeHandler_run. unfold finalize_outcome. by rewrite Hb, Hp, failed_status.
      - rewrite customizeHandler_run. unfold customize_outcome.
        by rewrite Hb, Hp, failed_status. }
  destruct (Handler_P h p) eqn:HP.
  2:{ left. assert (bad_request h r) as Hbad.
      { right; right. by exists e, p, g. }
      split; [done|]. split.
      { intros (e' & p' & Ha)%server_error_assembled. eauto using bad_request_not_assembled. }
      subst status. destruct h; simpl in *.
      - rewrite syncHandler_run. unfold sync_outcome. by rewrite Hb, Hp, HP, failed_status.
      - rewrite finalizeHandler_run. unfold finalize_outcome.
        by rewrite Hb, Hp, HP, failed_status.
      - rewrite customizeHandler_run. unfold customize_outcome.
        by rewrite Hb, Hp, HP, failed_status. }
  assert (assembled h r e p) as Ha by by exists g.
  assert (¬ bad_request h r) as Hgood by eauto using bad_request_not_assembled.
  right.
  destruct (Handler_status_assembled ord h r e p g Hb Hp HP) as [[Hf Hs] | (Hn1 & Hn2 & Hs)].
  - left. split; [done|]. split; [|done].
    destruct Hf as [Hf|Hf]; [left|right]; by exists e, p.
  - right. split; [done|]. split; [|done].
    intros [(e' & p' & Ha' & Hf) | (e' & p' & Ha' & Hf)];
      destruct (assembled_unique h r e p g e' p' Hb Hp Ha') as [-> ->]; done.
Qed.

(** *** The mux *)

Lemma NoDup_fst_unique {A B : Type} (l : list (A * B)) (k : A) (a b : B) :
  NoDup l.*1 → (k, a) ∈ l → (k, b) ∈ l → a = b.
Proof.
  induction l as [|[k' c] l IH]; simpl; intros Hnd Ha Hb.
  - by apply elem_of_nil in Ha.
  - apply NoDup_cons in Hnd as [Hk Hnd].
    apply elem_of_cons in Ha as [Ha|Ha], Hb as [Hb|Hb]; simplify_eq; try done.
    + exfalso. apply Hk. apply list_elem_of_fmap. by eexists (_, _).
    + exfalso. apply Hk. apply list_elem_of_fmap. by eexists (_, _).
    + by apply IH.
Qed.

Lemma hooks_only_POST (mux : ServeMux) (r : Request) h :
  hooks_only mux →
  ({| pat_method := "POST"; pat_path := req_path r |}, h) ∈ mux →
  req_method r = "POST" →
  ∃ i pat, list_find (matches r) mux = Some (i, (pat, h)).
Proof.
  intros [Hnd Hpost] Hin Hm.
  destruct (list_find (matches r) mux) as [[i [pat h']]|] eqn:Hf.
  - apply list_find_Some in Hf as (Hi & [Hpath Hmeth] & _).
    assert ((pat, h') ∈ mux) as Hin' by by eapply list_elem_of_lookup_2.
    assert (pat_method pat = "POST") as Hpm.
    { rewrite Forall_forall in Hpost. by apply (Hpost (pat, h')). }
    assert (pat = {| pat_method := "POST"; pat_path := req_path r |}) as ->.
    { destruct pat as [m p]. unfold matches_path in Hpath. simpl in *. by subst. }
    rewrite (NoDup_fst_unique _ _ _ _ Hnd Hin Hin'). eauto.
  - apply list_find_None in Hf. rewrite Forall_forall in Hf.
    exfalso. apply (Hf _ Hin). split; [done|]. right. by rewrite Hm.
Qed.

Lemma hooks_only_other (mux : ServeMux) (r : Request) h :
  hooks_only mux →
  ({| pat_method := "POST"; pat_path := req_path r |}, h) ∈ mux →
  req_method r ≠ "POST" →
  list_find (matches r) mux = None ∧ filter (matches_path r) mux ≠ [].
Proof.
  intros [Hnd Hpost] Hin Hm. split.
  - apply list_find_None. rewrite Forall_forall in *. intros [pat h'] Hin' [_ Hmeth].
    specialize (Hpost _ Hin'). simpl in *. rewrite Hpost in Hmeth.
    destruct Hmeth as [Hmeth|Hmeth]; [done|]. by apply Hm.
  - intros Hnil.
    assert (({| pat_method := "POST"; pat_path := req_path r |}, h)
              ∈ filter (matches_path r) mux) as Hin'.
    { apply list_elem_of_filter. by split. }
    rewrite Hnil in Hin'. by apply elem_of_nil in Hin'.
Qed.

(** C6 (status-code table, and where the code leaves it).  For a request
    to a path at which a hook is registered, on a mux holding hook
    registrations only: the status is 405 exactly when the method is not
    POST; 400 exactly when a POST request has an unparseable envelope, an
    undecodable parent or a parent of the wrong type; 500 exactly when a
    POST request is assembled and the user's handler returns an error or
    the encoding of the status or of a child through the Type Catalog
    fails, which only the sync handler attempts.  When [json.Encode]
    refuses the value a handler hands to it, the answer is 200 with an
    empty body.  The finalize handler encodes its status and its children
    in that call alone: on that endpoint a status or a child that cannot
    be encoded is answered 200, not 500.  The conditions are read at their
    stage of the pipeline: the mux checks the method before any handler
    sees the body. *)
Theorem status_code_table ord hs h r :
  hooks_only (mux hs) →
  ({| pat_method := "POST"; pat_path := req_path r |}, h) ∈ mux hs →
  let status := response_status (writer (serve ord hs r)) in
  (status = 405 ↔ req_method r ≠ "POST") ∧
  (status = 400 ↔
     req_method r = "POST" ∧
     (envelope_unparseable r ∨ parent_undecodable h r ∨ type_mismatch h r)) ∧
  (status = 500 ↔
     req_method r = "POST" ∧
     (handler_error ord h r ∨ catalog_encode_failure ord h r)) ∧
  (req_method r = "POST" → json_encode_failure ord h r →
     status = 200 ∧ rw_body (writer (serve ord hs r)) = []).
Proof.
  intros Hmux Hin status.
  destruct (decide (req_method r = "POST")) as [Hm|Hm].
  - destruct (hooks_only_POST _ r h Hmux Hin Hm) as (i & pat & Hf).
    assert (serve ord hs r = run (Handler_ServeHTTP ord h r)) as Hw.
    { unfold serve, run, ServeMux_ServeHTTP. by rewrite Hf. }
    subst status. rewrite Hw.
    pose proof (Handler_status ord h r) as Hst. cbv zeta in Hst.
    fold (bad_request h r). fold (server_error ord h r).
    assert (req_method r = "POST" → json_encode_failure ord h r →
            response_status (writer (run (Handler_ServeHTTP ord h r))) = 200 ∧
            rw_body (writer (run (Handler_ServeHTTP ord h r))) = []) as Hjson.
    { intros _ (e & p & (g & Hb & Hp & HP) & Hj).
      exact (Handler_json_failure ord h r e p g Hb Hp HP Hj). }
    destruct Hst as [(Hb & Hs & Hst) | [(Hb & Hs & Hst) | (Hb & Hs & Hst)]];
      (split; [|split; [|split; [|exact Hjson]]]); rewrite Hst; split; try done;
      try (intros [_ ?]; done); try (intros ?; done).
  - destruct (hooks_only_other _ r h Hmux Hin Hm) as [Hf Hne].
    assert (status = 405) as ->.
    { subst status. unfold serve, run, ServeMux_ServeHTTP. rewrite Hf.
      destruct (filter (matches_path r) (mux hs)) as [|x l]; [done|]. reflexivity. }
    (split; [|split; [|split; [|done]]]); split; try done; intros [? _]; done.
Qed.
End table.

(** ** The server, [writeError] and the finalize handler *)

Section server.
Context `{JSONEncoder}.

Lemma parsePattern_POST (path : string) :
  parsePattern ("POST " +:+ path) =
  {| pat_method := "POST"; pat_path := trim_left path |}.
Proof. reflexivity. Qed.

Lemma register_unstarted path h hs hs' :
  register path h hs = Some hs' → unstarted hs → unstarted hs'.
Proof.
  unfold register, ServeMux_Handle. rewrite parsePattern_POST.
  intros Hr [[Hnd Hpost] Hsrv]. case_decide as Hin; [done|].
  injection Hr as <-. split; [split|done]; simpl.
  - rewrite fmap_app. apply NoDup_app. split; [done|]. split.
    + intros pat Hp Hp'. apply list_elem_of_singleton in Hp'. by subst.
    + apply NoDup_singleton.
  - apply Forall_app. split; [done|]. by repeat constructor.
Qed.

Lemma foldl_options_None (opts : list Option) :
  foldl (fun hs opt => hs ≫= opt) None opts = None.
Proof. by induction opts. Qed.

Lemma foldl_options_inv (Q : Option → Prop) (opts : list Option) (init hs : HookServer) :
  (∀ opt a b, Q opt → unstarted a → opt a = Some b → unstarted b) →
  Forall Q opts →
  unstarted init →
  foldl (fun hs opt => hs ≫= opt) (Some init) opts = Some hs →
  unstarted hs.
Proof.
  intros Hstep Hall. revert init. induction Hall as [|opt opts Hq _ IH]; intros init Hi; simpl.
  - by intros [= <-].
  - destruct (opt init) as [next|] eqn:Ho.
    + apply IH. by eapply Hstep.
    + by rewrite foldl_options_None.
Qed.

Lemma provided_hook_unstarted hook a b :
  provided_hook hook → unstarted a → hook a = Some b → unstarted b.
Proof. intros [] Ha Hr; by eapply register_unstarted. Qed.

Lemma provided_unstarted opt a b :
  provided opt → unstarted a → opt a = Some b → unstarted b.
Proof.
  intros [addr' | l | hooks Hhooks] Ha.
  - intros [= <-]. exact Ha.
  - intros [= <-]. exact Ha.
  - unfold CompositeController. eapply foldl_options_inv; [|exact Hhooks|exact Ha].
    apply provided_hook_unstarted.
Qed.

Lemma NewHookServer_unstarted opts hs :
  Forall provided opts → NewHookServer opts = Some hs → unstarted hs.
Proof.
  intros Hopts. unfold NewHookServer.
  eapply foldl_options_inv; [apply provided_unstarted|exact Hopts|].
  split; [|done]. split; [apply NoDup_nil_2|constructor].
Qed.

(** C10 (shutdown before start).  On a server whose [http.Server] was
    never created, [Shutdown] returns nil for any context, logs nothing and
    shuts nothing down. *)
Theorem Shutdown_before_start (hs : HookServer) (ctx : context_Context) :
  server hs = None → Shutdown ctx hs = (no_effects, None).
Proof. intros Hs. unfold Shutdown. by rewrite Hs. Qed.

(** Once [ListenAndServe] has stored a server, [Shutdown] reaches it. *)
Lemma Shutdown_after_start (hs : HookServer) (ctx : context_Context) :
  eff_shutdowns (Shutdown ctx (ListenAndServe hs).1).1 = [ctx].
Proof. reflexivity. Qed.

(** C9 (generic error bodies).  With a logger that is not enabled at debug
    level, [writeError] leaves the same response writer for any two errors
    under one status code: the body gains the category text and a line
    feed, and nothing of the error.  With a logger enabled at debug level
    the detail follows the category text after ": ".  The category texts
    of 400, 500 and 405 are the three fixed strings. *)
Theorem writeError_generic_body code err1 err2 logger w :
  (Enabled logger LevelDebug = false →
     writer (writeError code err1 logger w).2 = writer (writeError code err2 logger w).2 ∧
     rw_body (writer (writeError code err1 logger w).2) =
       rw_body (writer w) ++ [PlainText (category code +:+ newline)]) ∧
  (Enabled logger LevelDebug = true →
     rw_body (writer (writeError code err1 logger w).2) =
       rw_body (writer w) ++
         [PlainText ((category code +:+ ": " +:+ err1) +:+ newline)]) ∧
  category 400 = "bad request" ∧
  category 500 = "internal server error" ∧
  category 405 = "method not allowed".
Proof.
  split; [|split; [|done]].
  - intros Hd. unfold writeError. rewrite Hd. done.
  - intros Hd. unfold writeError. rewrite Hd. done.
Qed.

(** Whatever the request, the finalizer never sees a child. *)
Lemma finalize_request_children ord fh r c :
  c ∈ calls (run (finalizeHandler_ServeHTTP ord fh r)) →
  ∃ parent, c = FinalizeCall {| FinalizeRequest_Parent := parent;
                                FinalizeRequest_Children := ∅ |}.
Proof.
  rewrite finalizeHandler_run. unfold finalize_outcome.
  destruct (req_body r) as [e|err]; [|rewrite failed_calls; by intros ?%elem_of_nil].
  destruct (finalize_decoder fh (wire_parent e)) as [[p g]|err];
    [|rewrite failed_calls; by intros ?%elem_of_nil].
  destruct (finalize_P fh p); [|rewrite failed_calls; by intros ?%elem_of_nil].
  cbv zeta. destruct (Finalize _ _) as [resp|err].
  - rewrite answered_calls. simpl. intros ->%list_elem_of_singleton. eauto.
  - rewrite failed_calls. simpl. intros ->%list_elem_of_singleton. eauto.
Qed.

(** C3 (evaluated on the code).  Whatever JSON value the finalize handler
    writes is the finalizer's typed response itself, handed to
    [encoding/json] as it is: the object has no "finalized", no
    "children" and no "status" member, whatever the finalizer returned. *)
Theorem finalize_response_unencoded ord fh r v :
  JSON v ∈ rw_body (writer (run (finalizeHandler_ServeHTTP ord fh r))) →
  (∃ resp, v = EncFinalizeResponse resp) ∧
  json_member "finalized" v = None ∧
  json_member "children" v = None ∧
  json_member "status" v = None.
Proof.
  rewrite finalizeHandler_run. unfold finalize_outcome.
  assert (∀ w code err lg, rw_body (writer w) = [] →
            JSON v ∈ rw_body (writer (failed w code err lg)) → False) as Hfail.
  { intros w code err lg Hw. rewrite failed_body, Hw. simpl.
    by intros ?%list_elem_of_singleton. }
  destruct (req_body r) as [e|err]; [|by intros ?%Hfail].
  destruct (finalize_decoder fh (wire_parent e)) as [[p g]|err]; [|by intros ?%Hfail].
  destruct (finalize_P fh p); [|by intros ?%Hfail].
  cbv zeta. destruct (Finalize _ _) as [resp|err]; [|by intros ?%Hfail].
  rewrite answered_body. simpl.
  destruct (json_Encode_error _); [by intros ?%elem_of_nil|].
  intros [= ->]%list_elem_of_singleton. split; [eauto|]. done.
Qed.
End server.

(** ** Kind keys, and concrete runs on the small catalog *)

(** C7 (as amended).  For every Kind Identifier, [KeyForGVK] returns
    "version/kind" when the group is empty and "group/version/kind"
    otherwise, and every key that reads back as an identifier is the key of
    that identifier.  On Kind Identifiers whose version and kind contain no
    "/" (the group is free), reading the key back gives the identifier, so
    the key is injective there. *)
Theorem KeyForGVK_canonical (g1 g2 : GroupVersionKind) :
  (Group g1 = "" → KeyForGVK g1 = Version g1 +:+ "/" +:+ Kind g1) ∧
  (Group g1 ≠ "" →
     KeyForGVK g1 = Group g1 +:+ "/" +:+ Version g1 +:+ "/" +:+ Kind g1) ∧
  (∀ key, spec_ParseKey key = Some g1 → KeyForGVK g1 = key) ∧
  (separable g1 → spec_ParseKey (KeyForGVK g1) = Some g1) ∧
  (separable g1 → separable g2 → KeyForGVK g1 = KeyForGVK g2 → g1 = g2).
Proof.
  split; [|split; [|split; [|split]]].
  - intros Hg. unfold KeyForGVK. by case_decide.
  - intros Hg. unfold KeyForGVK. by case_decide.
  - intros key. apply KeyForGVK_spec_ParseKey.
  - apply spec_ParseKey_KeyForGVK.
  - apply KeyForGVK_inj_separable.
Qed.

Lemma KeyForGVK_canonical_witness :
  separable Toy.DeploymentGVK ∧ separable Toy.ServiceGVK ∧
  separable (GVK "a/b" "v1" "Gadget") ∧
  KeyForGVK Toy.DeploymentGVK = "apps/v1/Deployment" ∧
  KeyForGVK Toy.ServiceGVK = "v1/Service" ∧
  spec_ParseKey "apps/v1/Deployment" = Some Toy.DeploymentGVK ∧
  spec_ParseKey "v1/Service" = Some Toy.ServiceGVK ∧
  spec_ParseKey "a/b/v1/Gadget" = Some (GVK "a/b" "v1" "Gadget") ∧
  KeyForGVK Toy.DeploymentGVK ≠ KeyForGVK (GVK "a/b" "v1" "Gadget").
Proof.
  assert (separable Toy.DeploymentGVK) as Hd by (split; reflexivity).
  assert (separable Toy.ServiceGVK) as Hs by (split; reflexivity).
  assert (separable (GVK "a/b" "v1" "Gadget")) as Hg by (split; reflexivity).
  destruct (KeyForGVK_canonical Toy.DeploymentGVK (GVK "a/b" "v1" "Gadget"))
    as (_ & Hlong & _ & Hparse & Hinj).
  destruct (KeyForGVK_canonical Toy.ServiceGVK Toy.DeploymentGVK)
    as (Hshort & _ & _ & Hparse' & _).
  destruct (KeyForGVK_canonical (GVK "a/b" "v1" "Gadget") Toy.ServiceGVK)
    as (_ & _ & _ & Hparse'' & _).
  split; [exact Hd|]. split; [exact Hs|]. split; [exact Hg|].
  split; [exact (Hlong ltac:(discriminate))|].
  split; [exact (Hshort eq_refl)|].
  split; [exact (Hparse Hd)|]. split; [exact (Hparse' Hs)|].
  split; [exact (Hparse'' Hg)|].
  intros Heq. specialize (Hinj Hd Hg Heq). discriminate Hinj.
Defined.

(** C7 fails as stated: two distinct Kind Identifiers with one key, once
    through a "/" in a version and once through a "/" in a kind. *)
Lemma KeyForGVK_not_injective :
  (GVK "" "a/b" "c" ≠ GVK "a" "b" "c" ∧
   KeyForGVK (GVK "" "a/b" "c") = KeyForGVK (GVK "a" "b" "c")) ∧
  (GVK "" "a" "b/c" ≠ GVK "a" "b" "c" ∧
   KeyForGVK (GVK "" "a" "b/c") = KeyForGVK (GVK "a" "b" "c")).
Proof. split; (split; [discriminate|reflexivity]). Qed.

Import Toy.

Lemma child_decode_isolation_witness :
  let r := post sync_path (inl mixed_children) in
  let w := run (syncHandler_ServeHTTP forward (sh echo quiet) r) in
  ∃ cs, calls w = [SyncCall {| SyncRequest_Parent := Widget "w1";
                               SyncRequest_Children := cs;
                               SyncRequest_Finalizing := false |}] ∧
        cs !!! DeploymentGVK ≡ₚ [Deployment "a"; Deployment "b"] ∧
        cs !!! ServiceGVK ≡ₚ [Service "svc"] ∧
        child_count cs = 3%nat ∧
        length (logs w) = 2%nat ∧
        response_status (writer w) = 200.
Proof.
  intros r w.
  destruct (child_decode_isolation forward (sh echo quiet) r mixed_children
              (Widget "w1") WidgetGVK eq_refl eq_refl eq_refl)
    as (cs & skips & later & Hc & Hb & Hn & _).
  exists cs. split; [exact Hc|].
  split; [rewrite (Hb DeploymentGVK); vm_compute; reflexivity|].
  split; [rewrite (Hb ServiceGVK); vm_compute; reflexivity|].
  split; [rewrite Hn; vm_compute; reflexivity|].
  split; vm_compute; reflexivity.
Defined.

(** C8 fails as stated: two Deployments stand on the wire as "a" then "b";
    under an admissible iteration order the syncer finds them as "b" then
    "a". *)
Lemma wire_order_not_kept :
  let r := post sync_path (inl two_children) in
  let w := run (syncHandler_ServeHTTP backward (sh echo quiet) r) in
  ∃ cs, calls w = [SyncCall {| SyncRequest_Parent := Widget "w1";
                               SyncRequest_Children := cs;
                               SyncRequest_Finalizing := false |}] ∧
        wire_items two_children = [bytes "D:a"; bytes "D:b"] ∧
        cs !!! DeploymentGVK = [Deployment "b"; Deployment "a"] ∧
        ¬ spec_wire_order decode two_children cs.
Proof.
  intros r w. exists (observed backward decode two_children).
  split; [vm_compute; reflexivity|]. split; [vm_compute; reflexivity|].
  split; [vm_compute; reflexivity|].
  intros Hs. specialize (Hs DeploymentGVK). vm_compute in Hs. discriminate Hs.
Qed.

Lemma children_in_visit_order_witness :
  let r := post sync_path (inl two_children) in
  ∃ cs,
    calls (run (syncHandler_ServeHTTP backward (sh echo quiet) r)) =
      [SyncCall {| SyncRequest_Parent := Widget "w1";
                   SyncRequest_Children := cs;
                   SyncRequest_Finalizing := false |}] ∧
    visit backward (children_of two_children) = [bytes "D:b"; bytes "D:a"] ∧
    cs !!! DeploymentGVK = [Deployment "b"; Deployment "a"].
Proof.
  intros r.
  destruct (children_in_visit_order backward (sh echo quiet) r two_children
              (Widget "w1") WidgetGVK eq_refl eq_refl eq_refl)
    as (cs & Hc & Hb & _).
  exists cs. split; [exact Hc|]. split; [vm_compute; reflexivity|].
  etrans; [exact (Hb DeploymentGVK)|]. vm_compute. reflexivity.
Defined.

Lemma type_mismatch_rejected_witness :
  let r := post sync_path (inl wrong_parent) in
  let w := run (Handler_ServeHTTP forward (SyncHandler (sh echo quiet)) r) in
  decode (wire_parent wrong_parent) = inl (Deployment "w1", DeploymentGVK) ∧
  is_widget (Deployment "w1") = false ∧
  response_status (writer w) = 400 ∧
  calls w = [] ∧
  rw_body (writer w) = [PlainText ("bad request" +:+ newline)].
Proof.
  intros r w.
  destruct (type_mismatch_rejected forward (SyncHandler (sh echo quiet)) r wrong_parent
              (Deployment "w1") DeploymentGVK eq_refl eq_refl eq_refl)
    as (Hs & Hc & _).
  split; [reflexivity|]. split; [reflexivity|]. split; [exact Hs|].
  split; [exact Hc|]. vm_compute. reflexivity.
Defined.

Lemma encode_failure_is_fatal_witness :
  let r := post sync_path (inl two_children) in
  let w := run (syncHandler_ServeHTTP forward (sh careless quiet) r) in
  encode (GVR_GroupVersion widgets) (Service "bad") = inr "no kind is registered" ∧
  response_status (writer w) = 500 ∧
  rw_body (writer w) = [PlainText ("internal server error" +:+ newline)].
Proof.
  intros r w. split; [reflexivity|].
  assert (child_unencodable (sync_encoder (sh careless quiet))
            {| SyncResponse_Status := Widget "w1";
               SyncResponse_Children :=
                 {[ ServiceGVK := [Service "w1-svc"; Service "bad"] ]} |}) as Hbad.
  { exists ServiceGVK, [Service "w1-svc"; Service "bad"], (Service "bad").
    split; [apply lookup_singleton_eq|]. split; [|exact I].
    apply elem_of_cons. right. apply elem_of_cons. by left. }
  destruct (encode_failure_is_fatal forward (sh careless quiet) r two_children
              (Widget "w1") WidgetGVK _ eq_refl eq_refl eq_refl eq_refl (or_intror Hbad))
    as (Hs & _ & _).
  split; [exact Hs|]. vm_compute. reflexivity.
Defined.

Lemma ToyServer_built : NewHookServer ToyServer.options = Some ToyServer.hs.
Proof. reflexivity. Qed.

Lemma ToyServer_provided : Forall provided ToyServer.options.
Proof.
  apply Forall_cons_2; [apply provided_Addr|].
  apply Forall_cons_2; [|apply Forall_nil_2].
  apply provided_CompositeController.
  apply Forall_cons_2; [apply provided_SyncHook|].
  apply Forall_cons_2; [apply provided_FinalizeHook|].
  apply Forall_cons_2; [apply provided_CustomizeHook|].
  apply Forall_nil_2.
Qed.

Lemma status_code_table_witness :
  let get := {| req_method := "GET"; req_path := sync_path; req_body := inr "EOF" |} in
  let bad := post sync_path (inr "unexpected end of JSON input") in
  let failing_hs :=
    {| addr := ":8080";
       mux := [({| pat_method := "POST"; pat_path := sync_path |},
                SyncHandler (sh failing quiet))];
       server := None; logger := quiet; debug := false |} in
  let fin := post finalize_path (inl two_children) in
  let w := @serve catalog strict_json forward ToyServer.hs fin in
  hooks_only (mux ToyServer.hs) ∧
  response_status (writer (serve forward ToyServer.hs get)) = 405 ∧
  response_status (writer (serve forward ToyServer.hs bad)) = 400 ∧
  response_status (writer (serve forward failing_hs
                             (post sync_path (inl two_children)))) = 500 ∧
  @json_encode_failure catalog strict_json forward (FinalizeHandler fh) fin ∧
  response_status (writer w) = 200 ∧
  rw_body (writer w) = [].
Proof.
  intros get bad failing_hs fin w.
  assert (hooks_only (mux ToyServer.hs)) as Hmux.
  { exact (proj1 (NewHookServer_unstarted _ _ ToyServer_provided ToyServer_built)). }
  assert (hooks_only (mux failing_hs)) as Hmux'.
  { split; [apply NoDup_singleton|]. apply Forall_cons_2; [reflexivity|apply Forall_nil_2]. }
  assert (@json_encode_failure catalog strict_json forward (FinalizeHandler fh) fin)
    as Hjson.
  { exists two_children, (Widget "w1"). split.
    - exists WidgetGVK. split; [reflexivity|]. split; reflexivity.
    - eexists. split; [reflexivity|]. eexists. reflexivity. }
  split; [exact Hmux|].
  destruct (status_code_table forward ToyServer.hs (SyncHandler (sh echo quiet)) get Hmux
              (list_elem_of_here _ _)) as (H405 & _ & _).
  destruct (status_code_table forward ToyServer.hs (SyncHandler (sh echo quiet)) bad Hmux
              (list_elem_of_here _ _)) as (_ & H400 & _).
  destruct (status_code_table forward failing_hs (SyncHandler (sh failing quiet))
              (post sync_path (inl two_children)) Hmux' (list_elem_of_here _ _))
    as (_ & _ & H500 & _).
  destruct (@status_code_table catalog strict_json forward ToyServer.hs (FinalizeHandler fh)
              fin Hmux (list_elem_of_further _ _ _ (list_elem_of_here _ _)))
    as (_ & _ & _ & H200).
  split; [|split; [|split; [|split]]].
  - apply H405. discriminate.
  - apply H400. split; [reflexivity|]. left. exact I.
  - apply H500. split; [reflexivity|]. left.
    exists two_children, (Widget "w1"). split; [|exact I].
    exists WidgetGVK. split; [reflexivity|]. split; reflexivity.
  - exact Hjson.
  - exact (H200 eq_refl Hjson).
Defined.

Lemma writeError_generic_body_witness :
  let w1 := (writeError 400 "SyncHook: error decoding parent: no kind" quiet World0).2 in
  let w2 := (writeError 400 "SyncHook: error decoding request: EOF" quiet World0).2 in
  let w3 := (writeError 500 "SyncHook: handler error: boom" verbose World0).2 in
  Enabled quiet LevelDebug = false ∧
  Enabled verbose LevelDebug = true ∧
  writer w1 = writer w2 ∧
  rw_body (writer w1) = [PlainText ("bad request" +:+ newline)] ∧
  rw_body (writer w3) =
    [PlainText ("internal server error: SyncHook: handler error: boom" +:+ newline)].
Proof.
  intros w1 w2 w3.
  destruct (writeError_generic_body 400 "SyncHook: error decoding parent: no kind"
              "SyncHook: error decoding request: EOF" quiet World0)
    as (Hquiet & _ & _).
  destruct (writeError_generic_body 500 "SyncHook: handler error: boom" "" verbose World0)
    as (_ & Hverbose & _).
  destruct (Hquiet eq_refl) as [Hsame Hbody].
  split; [reflexivity|]. split; [reflexivity|]. split; [exact Hsame|].
  split; [exact Hbody|exact (Hverbose eq_refl)].
Defined.

Lemma Shutdown_before_start_witness :
  server ToyServer.hs = None ∧ Shutdown () ToyServer.hs = (no_effects, None).
Proof.
  split; [reflexivity|]. apply (Shutdown_before_start ToyServer.hs ()). reflexivity.
Defined.

(** C2 (evaluated on the code).  A finalize request with two decodable
    Deployments: the loops decode both, and the request handed to the
    finalizer has no children. *)
Lemma finalize_drops_children :
  let r := post finalize_path (inl two_children) in
  observed forward decode two_children !!! DeploymentGVK =
    [Deployment "a"; Deployment "b"] ∧
  calls (run (finalizeHandler_ServeHTTP forward fh r)) =
    [FinalizeCall {| FinalizeRequest_Parent := Widget "w1";
                     FinalizeRequest_Children := ∅ |}].
Proof. split; vm_compute; reflexivity. Qed.

(** The same request when [encoding/json] refuses the typed response: the
    error is logged, nothing is written, and the client sees an empty 200. *)
Lemma finalize_response_dropped :
  let r := post finalize_path (inl two_children) in
  let w := run (@finalizeHandler_ServeHTTP catalog strict_json forward fh r) in
  rw_body (writer w) = [] ∧
  response_status (writer w) = 200 ∧
  log_msg <$> logs w = ["Finalize error: unable to encode response"].
Proof. repeat split; vm_compute; reflexivity. Qed.

Lemma finalize_response_unencoded_witness :
  let r := post finalize_path (inl two_children) in
  let v := EncFinalizeResponse
             {| FinalizeResponse_Status := Widget "w1";
                FinalizeResponse_Children := {[ DeploymentGVK := [Deployment "w1-deploy"] ]};
                FinalizeResponse_Finalized := true |} in
  rw_body (writer (run (finalizeHandler_ServeHTTP forward fh r))) = [JSON v] ∧
  json_member "finalized" v = None ∧
  json_member "children" v = None ∧
  json_member "Finalized" v = Some (JBool true).
Proof.
  intros r v.
  assert (rw_body (writer (run (finalizeHandler_ServeHTTP forward fh r))) = [JSON v])
    as Hbody by (vm_compute; reflexivity).
  destruct (finalize_response_unencoded forward fh r v) as (_ & Hf & Hc & _).
  { rewrite Hbody. apply elem_of_cons. by left. }
  split; [exact Hbody|]. split; [exact Hf|]. split; [exact Hc|]. reflexivity.
Defined.

(** * Further properties of the handlers and of the server *)

(** ** One answer per request *)

Section whole.
Context `{JSONEncoder}.

Lemma failed_writer_fresh w code err lg :
  writer w = writer World0 →
  writer (failed w code err lg) =
  {| rw_header := error_header; rw_code := Some code;
     rw_body := [PlainText (error_text lg code err)] |}.
Proof. intros Hw. unfold failed, writeError. simpl. rewrite Hw. reflexivity. Qed.

Lemma answered_writer_fresh w v msg attrs :
  writer w = writer World0 →
  writer (answered w v msg attrs) =
  {| rw_header := {["Content-Type" := "application/json"]};
     rw_code := match json_Encode_error v with Some _ => None | None => Some 200 end;
     rw_body := match json_Encode_error v with Some _ => [] | None => [JSON v] end |}.
Proof.
  intros Hw. unfold answered, json_Encode.
  destruct (json_Encode_error v); simpl; rewrite Hw; reflexivity.
Qed.

Lemma error_header_content_type :
  error_header !! "Content-Type" = Some "text/plain; charset=utf-8".
Proof. reflexivity. Qed.

End whole.

(** ** Error and success answers *)

Section success.
Context `{JSONEncoder}.

Lemma failed_logs_record w code err lg :
  logs (failed w code err lg) = logs w ++ [error_record err].
Proof. reflexivity. Qed.

(** X2 (what is answered is what was logged).  When a handler answers
    with a status other than 200, the last record of the log is the
    "Error: ..." record of [writeError] on the default logger, and the body
    is the single text [writeError] builds from that same detail: the
    category of the status alone, or the category followed by the detail
    when the logger of the endpoint is enabled at debug level. *)
Theorem error_detail_is_logged ord h r :
  let w := run (Handler_ServeHTTP ord h r) in
  response_status (writer w) ≠ 200 →
  ∃ detail earlier,
    logs w = earlier ++ [error_record detail] ∧
    rw_body (writer w) =
      [PlainText (error_text (Handler_logger h) (response_status (writer w)) detail)].
Proof.
  assert (∀ w code err lg,
            writer w = writer World0 →
            ∃ detail earlier,
              logs (failed w code err lg) = earlier ++ [error_record detail] ∧
              rw_body (writer (failed w code err lg)) =
                [PlainText (error_text lg (response_status (writer (failed w code err lg)))
                              detail)]) as Hfail.
  { intros w code err lg Hw. exists err, (logs w).
    rewrite failed_logs_record, (failed_writer_fresh w code err lg Hw). done. }
  assert (∀ w (v : EncodedValue) msg attrs,
            writer w = writer World0 →
            response_status (writer (answered w v msg attrs)) = 200) as Hans.
  { intros w v msg attrs Hw. rewrite answered_status, Hw. reflexivity. }
  intros w. subst w. destruct h as [sh|fh|ch]; simpl.
  - rewrite syncHandler_run. unfold sync_outcome.
    destruct (req_body r) as [e|err]; [|intros _; by apply Hfail].
    destruct (sync_decoder sh (wire_parent e)) as [[p g]|err]; [|intros _; by apply Hfail].
    destruct (sync_P sh p); [|intros _; by apply Hfail].
    cbv zeta. destruct (Sync _ _) as [resp|err]; [|intros _; by apply Hfail].
    destruct (sync_encoder sh (SyncResponse_Status resp)) as [sb|err];
      [|intros _; by apply Hfail].
    destruct (encode_buckets _ _ _) as [dc|err]; [|intros _; by apply Hfail].
    intros Hs. exfalso. apply Hs. by apply Hans.
  - rewrite finalizeHandler_run. unfold finalize_outcome.
    destruct (req_body r) as [e|err]; [|intros _; by apply Hfail].
    destruct (finalize_decoder fh (wire_parent e)) as [[p g]|err];
      [|intros _; by apply Hfail].
    destruct (finalize_P fh p); [|intros _; by apply Hfail].
    cbv zeta. destruct (Finalize _ _) as [resp|err]; [|intros _; by apply Hfail].
    intros Hs. exfalso. apply Hs. by apply Hans.
  - rewrite customizeHandler_run. unfold customize_outcome.
    destruct (req_body r) as [e|err]; [|intros _; by apply Hfail].
    destruct (customize_decoder ch (wire_parent e)) as [[p g]|err];
      [|intros _; by apply Hfail].
    destruct (customize_P ch p); [|intros _; by apply Hfail].
    cbv zeta. destruct (Customize _ _) as [resp|err]; [|intros _; by apply Hfail].
    intros Hs. exfalso. apply Hs. by apply Hans.
Qed.

(** *** What the encode loops build *)

Lemma encode_all_ok encoder (objs : list Object) (acc l : list RawMessage) :
  encode_all encoder objs acc = inl l →
  ∃ raws, l = acc ++ raws ∧ Forall2 (fun obj raw => encoder obj = inl raw) objs raws.
Proof.
  revert acc. induction objs as [|obj objs IH]; intros acc; simpl.
  - intros [= <-]. exists []. by rewrite app_nil_r.
  - destruct (encoder obj) as [data|err] eqn:He; [|done].
    intros (raws & -> & Hall)%IH. exists (data :: raws).
    rewrite <- app_assoc. split; [done|]. by constructor.
Qed.

Lemma encode_buckets_lookup_other encoder (l : list (GroupVersionKind * list Object))
    (acc d : gmap string (list RawMessage)) (key : string) :
  encode_buckets encoder l acc = inl d →
  Forall (fun kv => KeyForGVK kv.1 ≠ key) l →
  d !! key = acc !! key.
Proof.
  revert acc. induction l as [|[g objs] l IH]; intros acc; simpl.
  - by intros [= <-].
  - destruct (encode_all encoder objs []) as [raws|err]; [|done].
    intros Hd [Hg Hl]%Forall_cons. rewrite (IH _ Hd Hl).
    by apply lookup_insert_ne.
Qed.

Lemma encode_buckets_lookup encoder (l : list (GroupVersionKind * list Object))
    (acc d : gmap string (list RawMessage)) (g : GroupVersionKind) (objs : list Object) :
  encode_buckets encoder l acc = inl d →
  (g, objs) ∈ l →
  (∀ g' objs', (g', objs') ∈ l → KeyForGVK g' = KeyForGVK g → g' = g ∧ objs' = objs) →
  ∃ raws, d !! KeyForGVK g = Some raws ∧
          Forall2 (fun obj raw => encoder obj = inl raw) objs raws.
Proof.
  revert acc. induction l as [|[g0 objs0] l IH]; intros acc; simpl.
  - intros _ Hin. by apply elem_of_nil in Hin.
  - destruct (encode_all encoder objs0 []) as [raws0|err] eqn:He; [|done].
    intros Hd Hin Huniq.
    destruct (decide (Exists (fun kv => KeyForGVK kv.1 = KeyForGVK g) l)) as [Hex|Hnex].
    + apply Exists_exists in Hex as ([g' objs'] & Hin' & Hk). simpl in Hk.
      destruct (Huniq g' objs') as [-> ->]; [by right|done|].
      apply (IH _ Hd Hin'). intros g'' objs'' Hin''. apply Huniq. by right.
    + apply elem_of_cons in Hin as [[= <- <-]|Hin].
      2:{ exfalso. apply Hnex. apply Exists_exists. by exists (g, objs). }
      apply encode_all_ok in He as (raws & -> & Hall). exists raws. split; [|done].
      rewrite (encode_buckets_lookup_other _ _ _ _ (KeyForGVK g) Hd).
      * by rewrite lookup_insert_eq.
      * apply Forall_forall. intros kv Hkv Hk. apply Hnex. apply Exists_exists. eauto.
Qed.

Lemma encode_buckets_keys encoder (l : list (GroupVersionKind * list Object))
    (acc d : gmap string (list RawMessage)) (key : string) :
  encode_buckets encoder l acc = inl d →
  is_Some (d !! key) ↔ is_Some (acc !! key) ∨ ∃ kv, kv ∈ l ∧ KeyForGVK kv.1 = key.
Proof.
  revert acc. induction l as [|[g objs] l IH]; intros acc; simpl.
  - intros [= <-]. split; [by left|].
    intros [?|(kv & Hin & _)]; [done|]. by apply elem_of_nil in Hin.
  - destruct (encode_all encoder objs []) as [raws|err]; [|done].
    intros Hd. rewrite (IH _ Hd). split.
    + intros [Hacc|(kv & Hin & Hk)].
      * destruct (decide (KeyForGVK g = key)) as [<-|Hne].
        -- right. exists (g, objs). split; [by left|done].
        -- left. by rewrite lookup_insert_ne in Hacc.
      * right. exists kv. split; [by right|done].
    + intros [Hacc|(kv & Hin & Hk)].
      * left. destruct (decide (KeyForGVK g = key)) as [<-|Hne].
        -- by rewrite lookup_insert_eq.
        -- by rewrite lookup_insert_ne.
      * apply elem_of_cons in Hin as [->|Hin].
        -- left. simpl in Hk. subst key. by rewrite lookup_insert_eq.
        -- right. by exists kv.
Qed.

(** X3 (the sync answer).  For an assembled request whose syncer succeeds
    and whose status and children all encode, the body is one
    [rawCompositeResponse] with the encoded status, status 200 (when the
    JSON encoder takes it), and never a "finalized" member.  The keys of
    its children are exactly the [KeyForGVK] keys of the kinds the syncer
    returned, and a kind whose key no other returned kind shares holds the
    encodings of its objects, one for one and in the syncer's order. *)
Theorem sync_success_payload ord sh r e p g resp statusBytes :
  req_body r = inl e →
  sync_decoder sh (wire_parent e) = inl (p, g) →
  sync_P sh p = true →
  Sync (sync_syncer sh) (sync_request ord sh e p) = inl resp →
  sync_encoder sh (SyncResponse_Status resp) = inl statusBytes →
  ¬ child_unencodable (sync_encoder sh) resp →
  ∃ desired,
    let v := EncRawCompositeResponse
               {| rawCompositeResponse_Status := statusBytes;
                  rawCompositeResponse_Children := desired;
                  rawCompositeResponse_Finalized := false |} in
    let w := run (syncHandler_ServeHTTP ord sh r) in
    (json_Encode_error v = None →
       rw_body (writer w) = [JSON v] ∧ response_status (writer w) = 200) ∧
    json_member "finalized" v = None ∧
    (∀ key, is_Some (desired !! key) ↔
            ∃ gvk, is_Some (SyncResponse_Children resp !! gvk) ∧ KeyForGVK gvk = key) ∧
    (∀ gvk objs,
       SyncResponse_Children resp !! gvk = Some objs →
       (∀ gvk', is_Some (SyncResponse_Children resp !! gvk') →
                KeyForGVK gvk' = KeyForGVK gvk → gvk' = gvk) →
       ∃ raws, desired !! KeyForGVK gvk = Some raws ∧
               Forall2 (fun obj raw => sync_encoder sh obj = inl raw) objs raws).
Proof.
  intros Hb Hp HP Hs He Hok.
  destruct (encode_buckets (sync_encoder sh)
              (range_desired ord (SyncResponse_Children resp)) ∅) as [desired|err] eqn:Hd.
  2:{ exfalso. apply Hok. apply (encode_buckets_unencodable ord). by rewrite Hd. }
  exists desired. cbv zeta. split; [|split; [|split]].
  - intros Hj. rewrite syncHandler_run. unfold sync_outcome.
    rewrite Hb, Hp, HP. cbv zeta. rewrite Hs, He, Hd.
    rewrite answered_writer_fresh by reflexivity. rewrite Hj. done.
  - unfold json_member, json_members. simpl.
    destruct (decide (statusBytes = [])), (decide (desired = ∅)); reflexivity.
  - intros key. rewrite (encode_buckets_keys _ _ _ _ key Hd). rewrite lookup_empty.
    split.
    + intros [[? ?]|([gvk objs] & Hin & Hk)]; [done|].
      rewrite (range_desired_perm ord) in Hin. apply elem_of_map_to_list in Hin.
      exists gvk. split; [by eexists|done].
    + intros (gvk & [objs Hl] & Hk). right. exists (gvk, objs). split; [|done].
      rewrite (range_desired_perm ord). by apply elem_of_map_to_list.
  - intros gvk objs Hl Huniq.
    apply (encode_buckets_lookup _ _ _ _ gvk objs Hd).
    + rewrite (range_desired_perm ord). by apply elem_of_map_to_list.
    + intros g' objs' Hin Hk. rewrite (range_desired_perm ord) in Hin.
      apply elem_of_map_to_list in Hin.
      assert (g' = gvk) as -> by (apply Huniq; [by eexists|done]).
      split; [done|]. congruence.
Qed.

(** X4 (customize passes through).  For an assembled customize request
    whose customizer succeeds, the customizer is called once with the
    controller blob of the envelope untouched and the decoded parent, its
    response is written as it is with status 200, and nothing is logged. *)
Theorem customize_passes_through ch r e p g resp :
  req_body r = inl e →
  customize_decoder ch (wire_parent e) = inl (p, g) →
  customize_P ch p = true →
  Customize (customize_customizer ch)
    {| CustomizeRequest_Controller := wire_controller e;
       CustomizeRequest_Parent := p |} = inl resp →
  json_Encode_error (EncCustomizeResponse resp) = None →
  let w := run (customizeHandler_ServeHTTP ch r) in
  calls w = [CustomizeCall {| CustomizeRequest_Controller := wire_controller e;
                              CustomizeRequest_Parent := p |}] ∧
  rw_body (writer w) = [JSON (EncCustomizeResponse resp)] ∧
  response_status (writer w) = 200 ∧
  logs w = [].
Proof.
  intros Hb Hp HP Hc Hj w. subst w. rewrite customizeHandler_run.
  unfold customize_outcome. rewrite Hb, Hp, HP. cbv zeta. rewrite Hc.
  rewrite answered_calls, answered_logs, answered_writer_fresh by reflexivity.
  rewrite Hj. done.
Qed.
End success.

(** ** Registration *)

Section registration.
Context `{JSONEncoder}.

Lemma trim_left_hook_path kind gvr : trim_left (hook_path kind gvr) = hook_path kind gvr.
Proof. reflexivity. Qed.

Lemma register_mux path h hs hs' :
  register path h hs = Some hs' →
  ({| pat_method := "POST"; pat_path := trim_left path |} ∉ (mux hs).*1) ∧
  mux hs' = mux hs ++ [({| pat_method := "POST"; pat_path := trim_left path |}, h)] ∧
  addr hs' = addr hs ∧ logger hs' = logger hs ∧ server hs' = server hs.
Proof.
  unfold register, ServeMux_Handle. rewrite parsePattern_POST.
  case_decide as Hin; [done|]. by intros [= <-].
Qed.

Lemma list_find_matches_new (mux : ServeMux) (r : Request) path :
  Forall (fun e => pat_method e.1 = "POST") mux →
  {| pat_method := "POST"; pat_path := path |} ∉ mux.*1 →
  req_path r = path →
  list_find (matches r) mux = None ∧ filter (matches_path r) mux = [].
Proof.
  intros Hpost Hnew Hpath.
  assert (Forall (fun e => ¬ matches_path r e) mux) as Hno.
  { rewrite Forall_forall in *. intros [pat h'] Hin Hm. apply Hnew.
    apply list_elem_of_fmap. exists (pat, h'). split; [|done].
    specialize (Hpost _ Hin). unfold matches_path in Hm. simpl in *.
    destruct pat as [m p']. simpl in *. by subst. }
  split.
  - apply list_find_None. eapply Forall_impl; [exact Hno|]. intros e He [Hm _]. by apply He.
  - destruct (filter (matches_path r) mux) as [|x l'] eqn:Hf; [done|]. exfalso.
    assert (x ∈ filter (matches_path r) mux) as Hx by (rewrite Hf; by left).
    apply list_elem_of_filter in Hx as [Hm Hin].
    rewrite Forall_forall in Hno. by apply (Hno x).
Qed.

Lemma register_serves ord path h hs hs' r :
  unstarted hs →
  register path h hs = Some hs' →
  trim_left path = path →
  req_method r = "POST" →
  req_path r = path →
  serve ord hs' r = run (Handler_ServeHTTP ord h r).
Proof.
  intros [[Hnd Hpost] _] (Hnew & Hmux & _)%register_mux Htrim Hm Hp.
  rewrite Htrim in Hnew, Hmux.
  destruct (list_find_matches_new (mux hs) r path Hpost Hnew Hp) as [Hnone _].
  unfold serve, ServeMux_ServeHTTP. rewrite Hmux.
  rewrite (list_find_app_r _ _ _ Hnone). simpl.
  destruct (decide (matches r ({| pat_method := "POST"; pat_path := path |}, h)))
    as [Hyes|Hno]; [done|].
  exfalso. apply Hno. split; [done|]. right. by rewrite Hm.
Qed.

Lemma register_other ord path h hs hs' r :
  register path h hs = Some hs' →
  req_path r ≠ trim_left path →
  serve ord hs' r = serve ord hs r.
Proof.
  intros (_ & Hmux & _)%register_mux Hp.
  unfold serve, ServeMux_ServeHTTP. rewrite Hmux.
  assert (¬ matches_path r ({| pat_method := "POST"; pat_path := trim_left path |}, h))
    as Hno by (unfold matches_path; simpl; congruence).
  unfold ServeMux in *. rewrite filter_app, filter_cons, decide_False by done.
  rewrite filter_nil, app_nil_r.
  destruct (list_find (matches r) (mux hs)) as [[i [pat h']]|] eqn:Hf.
  - by rewrite (list_find_app_l _ _ _ _ _ Hf).
  - rewrite (list_find_app_r _ _ _ Hf). simpl.
    rewrite decide_False; [done|]. by intros [? _].
Qed.

(** X5 (a registered hook is served).  After [SyncHook] has registered a
    resource, a POST request to "/hooks/sync/<resource>[.<group>]/<version>"
    is served by the sync handler built at registration: the universal
    decoder, the legacy codec of the resource's group and version, the given
    syncer and the logger the server had at that moment. *)
Theorem SyncHook_serves ord P gvr syncer hs hs' r :
  unstarted hs →
  SyncHook P gvr syncer hs = Some hs' →
  req_method r = "POST" →
  req_path r = hook_path "sync" gvr →
  serve ord hs' r =
  run (syncHandler_ServeHTTP ord (registered_syncHandler P gvr syncer hs) r).
Proof.
  intros Hu Hr Hm Hp.
  exact (register_serves ord _ _ hs hs' r Hu Hr (trim_left_hook_path _ _) Hm Hp).
Qed.

(** X6 (registration is additive).  Registering one more hook changes
    nothing for a request to a path that was registered before. *)
Theorem registration_is_additive ord hook hs hs' r :
  unstarted hs →
  provided_hook hook →
  hook hs = Some hs' →
  req_path r ∈ pat_path <$> (mux hs).*1 →
  serve ord hs' r = serve ord hs r.
Proof.
  intros [[Hnd Hpost] _] Hprov Hr Hin.
  assert (∀ path h, register path h hs = Some hs' → serve ord hs' r = serve ord hs r)
    as Hreg.
  { intros path h Hreg. apply (register_other ord path h hs hs' r Hreg).
    intros Heq. apply register_mux in Hreg as (Hnew & _). apply Hnew.
    apply list_elem_of_fmap in Hin as (pat & Hpath & Hpat).
    apply list_elem_of_fmap in Hpat as ([pat' h'] & -> & Hin').
    apply list_elem_of_fmap. exists (pat', h'). split; [|done].
    rewrite Forall_forall in Hpost. specialize (Hpost _ Hin').
    destruct pat' as [m p]. simpl in *. f_equal; congruence. }
  destruct Hprov; exact (Hreg _ _ Hr).
Qed.

(** X7 (the logger is captured at registration).  A [Logger] option that
    runs after [SyncHook] changes the logger of the server, not the logger
    of the hook already registered: the endpoint keeps the one the server
    had when the hook was registered. *)
Theorem hook_keeps_logger_of_registration ord P gvr syncer hs hs1 hs2 l r :
  unstarted hs →
  SyncHook P gvr syncer hs = Some hs1 →
  Logger l hs1 = Some hs2 →
  req_method r = "POST" →
  req_path r = hook_path "sync" gvr →
  logger hs2 = l ∧
  serve ord hs2 r =
  run (syncHandler_ServeHTTP ord (registered_syncHandler P gvr syncer hs) r).
Proof.
  intros Hu Hr [= <-] Hm Hp. split; [done|].
  exact (register_serves ord _ _ hs hs1 r Hu Hr (trim_left_hook_path _ _) Hm Hp).
Qed.


End registration.

(** ** The earlier sync handler *)

Section legacy_facts.
Context `{JSONEncoder}.

Lemma legacy_decodeChild_run sh raw cs w :
  legacy.decodeChild sh raw cs w =
  (Some (observe (legacy.sync_decoder sh) cs raw), with_logs w (legacy.skip_log sh raw)).
Proof.
  unfold legacy.decodeChild, observe, legacy.skip_log.
  destruct (legacy.sync_decoder sh raw) as [[obj g]|err];
    [destruct (isClientObject obj)|]; try reflexivity.
  by rewrite with_logs_nil.
Qed.

Lemma legacy_forM_decodeChild sh (l : list RawMessage) cs w :
  forM l (legacy.decodeChild sh) cs w =
  (Some (foldl (observe (legacy.sync_decoder sh)) cs l),
   with_logs w (l ≫= legacy.skip_log sh)).
Proof.
  revert cs w. induction l as [|raw l IH]; intros cs w; simpl.
  - by rewrite with_logs_nil.
  - rewrite bind_run, legacy_decodeChild_run, IH, with_logs_app. done.
Qed.

Lemma legacy_decodeChildren_run ord sh children w :
  legacy.decodeChildren ord sh children w =
  (Some (foldl (observe (legacy.sync_decoder sh)) ∅
           (legacy.visit ord (default ∅ children))),
   with_logs w (legacy.visit ord (default ∅ children) ≫= legacy.skip_log sh)).
Proof.
  unfold legacy.decodeChildren, legacy.visit.
  generalize (legacy.range_lists ord (default ∅ children)).
  generalize (∅ : ChildSet).
  intros cs l. revert cs w. induction l as [|[k rl] l IH]; intros cs w; simpl.
  - by rewrite with_logs_nil.
  - rewrite bind_run, legacy_forM_decodeChild, IH, with_logs_app.
    by rewrite foldl_app, bind_app.
Qed.

Lemma legacy_encodeObjects_run sh objs rawList w :
  forM objs
    (fun obj rawList =>
       match legacy.sync_encoder sh obj with
       | inr err =>
           writeError StatusInternalServerError
             ("SyncHook: error encoding child: " +:+ err) (legacy.sync_logger sh);;
           exit
       | inl data => mret (rawList ++ [data])
       end) rawList w =
  match encode_all (legacy.sync_encoder sh) objs rawList with
  | inl l => (Some l, w)
  | inr err =>
      (None, failed w StatusInternalServerError
               ("SyncHook: error encoding child: " +:+ err) (legacy.sync_logger sh))
  end.
Proof.
  revert rawList. induction objs as [|obj objs IH]; intros rawList; simpl; [done|].
  rewrite bind_run. destruct (legacy.sync_encoder sh obj) as [data|err].
  - apply IH.
  - reflexivity.
Qed.

Lemma legacy_encodeBuckets_run sh (l : list (GroupVersionKind * list Object)) desired w :
  forM l
    (fun '(gvk, objs) desiredChildren =>
       let key := KeyForGVK gvk in
       rawList ← legacy.encodeObjects sh objs;
       mret (<[key := rawList]> desiredChildren)) desired w =
  match encode_buckets (legacy.sync_encoder sh) l desired with
  | inl d => (Some d, w)
  | inr err =>
      (None, failed w StatusInternalServerError
               ("SyncHook: error encoding child: " +:+ err) (legacy.sync_logger sh))
  end.
Proof.
  revert desired. induction l as [|[gvk objs] l IH]; intros desired; simpl; [done|].
  rewrite !bind_run. unfold legacy.encodeObjects. rewrite legacy_encodeObjects_run.
  destruct (encode_all (legacy.sync_encoder sh) objs []) as [rawList|err]; [|done].
  apply IH.
Qed.

Lemma legacy_syncHandler_run ord sh r :
  run (legacy.syncHandler_ServeHTTP ord sh r) = legacy.sync_outcome ord sh r.
Proof.
  unfold run, legacy.syncHandler_ServeHTTP, legacy.sync_outcome.
  rewrite bind_run.
  destruct (legacy.req_body r) as [e|err]; [|reflexivity].
  unfold mret at 1, M_ret at 1. cbv beta iota. rewrite bind_run.
  change (legacy.rawCompositeRequest_Parent (legacy.decode_rawCompositeRequest e))
    with (legacy.wire_parent e).
  destruct (legacy.sync_decoder sh (legacy.wire_parent e)) as [[p g]|err]; [|reflexivity].
  unfold mret at 1, M_ret at 1. cbv beta iota. rewrite bind_run.
  destruct (legacy.sync_P sh p); [|reflexivity].
  unfold mret at 1, M_ret at 1. cbv beta iota.
  rewrite bind_run, legacy_decodeChildren_run.
  cbv beta iota. rewrite bind_run.
  change (legacy.rawCompositeRequest_Finalizing (legacy.decode_rawCompositeRequest e))
    with (legacy.wire_finalizing e).
  fold (legacy.children_of e). fold (legacy.observed ord sh e).
  fold (legacy.sync_request ord sh e p).
  set (req := legacy.sync_request ord sh e p).
  set (w := with_logs World0 _).
  change (record_call (SyncCall req) w) with (Some (), with_call w (SyncCall req)).
  cbv beta iota. rewrite bind_run.
  destruct (legacy.sync_handler sh req) as [resp|err]; [|reflexivity].
  unfold mret at 1, M_ret at 1. cbv beta iota. rewrite bind_run.
  destruct (legacy.sync_encoder sh (legacy.CompositeResponse_Status resp))
    as [statusBytes|err]; [|reflexivity].
  unfold mret at 1, M_ret at 1. cbv beta iota. rewrite bind_run.
  unfold legacy.encodeChildren. rewrite legacy_encodeBuckets_run.
  destruct (encode_buckets _ _ _) as [desired|err]; reflexivity.
Qed.

Lemma omap_bind_snd {K A B : Type} (f : A → option B) (l : list (K * list A)) :
  omap f (l ≫= snd) = l ≫= (fun kv => omap f kv.2).
Proof.
  induction l as [|[k x] l IH]; [done|]. rewrite !bind_cons, omap_app, IH. done.
Qed.

Lemma bind_single_bucket {K A B : Type} `{EqDecision K}
    (f : A → option B) (l : list (K * list A)) (k : K) (raws : list A) :
  NoDup l.*1 →
  (k, raws) ∈ l →
  (∀ k' raws', k' ≠ k → (k', raws') ∈ l → omap f raws' = []) →
  l ≫= (fun kv => omap f kv.2) = omap f raws.
Proof.
  induction l as [|[k0 r0] l IH]; intros Hnd Hin Hother.
  - by apply elem_of_nil in Hin.
  - rewrite fmap_cons in Hnd. simpl in Hnd.
    apply NoDup_cons in Hnd as [Hk0 Hnd]. rewrite bind_cons. simpl.
    destruct (decide (k0 = k)) as [->|Hne].
    + assert (r0 = raws) as ->.
      { apply elem_of_cons in Hin as [[= ->]|Hin]; [done|].
        exfalso. apply Hk0. apply list_elem_of_fmap. by exists (k, raws). }
      assert (l ≫= (fun kv => omap f kv.2) = []) as ->; [|by rewrite app_nil_r].
      clear IH Hin. induction l as [|[k1 r1] l IH]; [done|].
      rewrite bind_cons. simpl.
      rewrite (Hother k1 r1).
      * simpl. apply IH.
        -- intros Hin. apply Hk0. by right.
        -- by apply NoDup_cons in Hnd as [_ ?].
        -- intros k' raws' Hne Hin. apply (Hother k' raws' Hne).
           apply elem_of_cons in Hin as [[= -> ->]|Hin]; [by left|].
           right. by right.
      * intros ->. apply Hk0. by left.
      * right. by left.
    + rewrite (Hother k0 r0 Hne) by by left. simpl. apply IH; [done| |].
      * apply elem_of_cons in Hin as [[= -> ->]|Hin]; done.
      * intros k' raws' Hne' Hin'. apply (Hother k' raws' Hne'). by right.
Qed.

(** X9 (earlier handler: a kind's list keeps its order).  In the handler
    that received the children of a kind as a JSON array: when every blob
    that decodes to a kind stands in the array of one key, the syncer finds
    under that kind the decodable children of the array, in the order of
    the array. *)
Theorem legacy_list_order_kept ord sh r e p g gvk k raws :
  legacy.req_body r = inl e →
  legacy.sync_decoder sh (legacy.wire_parent e) = inl (p, g) →
  legacy.sync_P sh p = true →
  legacy.children_of e !! k = Some raws →
  (∀ k' raws', k' ≠ k → legacy.children_of e !! k' = Some raws' →
               omap (decodes_to (legacy.sync_decoder sh) gvk) raws' = []) →
  ∃ cs,
    calls (run (legacy.syncHandler_ServeHTTP ord sh r)) =
      [SyncCall {| SyncRequest_Parent := p;
                   SyncRequest_Children := cs;
                   SyncRequest_Finalizing := legacy.wire_finalizing e |}] ∧
    cs !!! gvk = omap (decodes_to (legacy.sync_decoder sh) gvk) raws.
Proof.
  intros Hb Hp HP Hk Hother. exists (legacy.observed ord sh e). split.
  - rewrite legacy_syncHandler_run. unfold legacy.sync_outcome. rewrite Hb, Hp, HP.
    cbv zeta. destruct (legacy.sync_handler sh _) as [resp|err];
      [|by rewrite failed_calls].
    destruct (legacy.sync_encoder sh _) as [sb|err]; [|by rewrite failed_calls].
    destruct (encode_buckets _ _ _) as [dc|err]; [|by rewrite failed_calls].
    by rewrite answered_calls.
  - unfold legacy.observed. rewrite foldl_observe_lookup, lookup_total_empty. simpl.
    unfold legacy.visit. rewrite omap_bind_snd.
    apply (bind_single_bucket _ _ k raws).
    + rewrite (legacy.range_lists_perm ord). apply NoDup_fst_map_to_list.
    + rewrite (legacy.range_lists_perm ord). by apply elem_of_map_to_list.
    + intros k' raws' Hne Hin. apply (Hother k' raws' Hne).
      rewrite (legacy.range_lists_perm ord) in Hin. by apply elem_of_map_to_list in Hin.
Qed.

End legacy_facts.

(** ** Dispatch *)

Section dispatch.
Context `{JSONEncoder}.

(** X11 (the user's code sees typed parents only).  A handler calls the
    user's code exactly when the envelope parses, the parent decodes and
    the decoded parent has the type the endpoint was registered for; it
    then calls it once, with that parent (and, for sync, the observed
    children and the finalizing flag; for customize, the controller blob).
    In every other case the user's code is not called. *)
Theorem handler_called_iff_assembled ord h r :
  calls (run (Handler_ServeHTTP ord h r)) =
  match req_body r with
  | inl e =>
      match Handler_decoder h (wire_parent e) with
      | inl (p, _) => if Handler_P h p then [Handler_call ord h e p] else []
      | inr _ => []
      end
  | inr _ => []
  end.
Proof.
  destruct h as [sh|fh|ch]; simpl.
  - rewrite syncHandler_run. unfold sync_outcome.
    destruct (req_body r) as [e|err]; [|by rewrite failed_calls].
    destruct (sync_decoder sh (wire_parent e)) as [[p g]|err]; [|by rewrite failed_calls].
    destruct (sync_P sh p); [|by rewrite failed_calls]. cbv zeta.
    destruct (Sync _ _) as [resp|err]; [|by rewrite failed_calls].
    destruct (sync_encoder sh _) as [sb|err]; [|by rewrite failed_calls].
    destruct (encode_buckets _ _ _) as [dc|err]; [|by rewrite failed_calls].
    by rewrite answered_calls.
  - rewrite finalizeHandler_run. unfold finalize_outcome.
    destruct (req_body r) as [e|err]; [|by rewrite failed_calls].
    destruct (finalize_decoder fh (wire_parent e)) as [[p g]|err];
      [|by rewrite failed_calls].
    destruct (finalize_P fh p); [|by rewrite failed_calls]. cbv zeta.
    destruct (Finalize _ _) as [resp|err]; [|by rewrite failed_calls].
    by rewrite answered_calls.
  - rewrite customizeHandler_run. unfold customize_outcome.
    destruct (req_body r) as [e|err]; [|by rewrite failed_calls].
    destruct (customize_decoder ch (wire_parent e)) as [[p g]|err];
      [|by rewrite failed_calls].
    destruct (customize_P ch p); [|by rewrite failed_calls]. cbv zeta.
    destruct (Customize _ _) as [resp|err]; [|by rewrite failed_calls].
    by rewrite answered_calls.
Qed.

Lemma filter_matches_path_unique (mux : ServeMux) r h :
  hooks_only mux →
  ({| pat_method := "POST"; pat_path := req_path r |}, h) ∈ mux →
  pat_method <$> (filter (matches_path r) mux).*1 = ["POST"].
Proof.
  intros [Hnd Hpost] Hin. unfold ServeMux in *.
  induction mux as [|[pat h'] mux IH]; [by apply elem_of_nil in Hin|].
  rewrite fmap_cons in Hnd. simpl in Hnd. apply NoDup_cons in Hnd as [Hpat Hnd].
  apply Forall_cons in Hpost as [Hp Hpost]. simpl in Hp.
  rewrite filter_cons.
  assert (∀ l : list (Pattern * Handler),
            Forall (fun e => pat_method e.1 = "POST") l →
            {| pat_method := "POST"; pat_path := req_path r |} ∉ l.*1 →
            filter (matches_path r) l = []) as Hnone.
  { intros l Hl Hnot.
    destruct (filter (matches_path r) l) as [|x l'] eqn:Hf; [done|]. exfalso.
    assert (x ∈ filter (matches_path r) l) as Hx by (rewrite Hf; left).
    apply list_elem_of_filter in Hx as [Hm Hx]. apply Hnot.
    apply list_elem_of_fmap. exists x. split; [|done].
    rewrite Forall_forall in Hl. specialize (Hl _ Hx).
    destruct x as [[m p] hx]. unfold matches_path in Hm. simpl in *. by subst. }
  apply elem_of_cons in Hin as [[= <- <-]|Hin].
  - rewrite decide_True by reflexivity.
    rewrite (Hnone mux Hpost Hpat). reflexivity.
  - rewrite decide_False.
    + by apply IH.
    + unfold matches_path. simpl. intros Hpath. apply Hpat.
      apply list_elem_of_fmap. exists ({| pat_method := "POST"; pat_path := req_path r |}, h).
      split; [|done]. simpl. destruct pat as [m p]. simpl in *. by subst.
Qed.

(** X12 (a wrong method stops at the mux).  On a server holding hook
    registrations only, a request to a registered path with a method other
    than POST is answered by the mux: status 405, "Allow: POST", the status
    text as body; no handler runs, the user's code is not called and
    nothing is logged. *)
Theorem wrong_method_never_reaches_handler ord hs h r :
  hooks_only (mux hs) →
  ({| pat_method := "POST"; pat_path := req_path r |}, h) ∈ mux hs →
  req_method r ≠ "POST" →
  let w := serve ord hs r in
  calls w = [] ∧ logs w = [] ∧
  rw_header (writer w) !! "Allow" = Some "POST" ∧
  rw_code (writer w) = Some 405 ∧
  rw_body (writer w) = [PlainText (StatusText 405 +:+ newline)].
Proof.
  intros Hmux Hin Hm.
  destruct (hooks_only_other _ r h Hmux Hin Hm) as [Hf Hne].
  pose proof (filter_matches_path_unique _ r h Hmux Hin) as Hallow.
  cbv zeta. unfold serve, run, ServeMux_ServeHTTP. rewrite Hf.
  destruct (filter (matches_path r) (mux hs)) as [|x l] eqn:Hfl; [done|].
  rewrite Hallow. repeat split; reflexivity.
Qed.
End dispatch.

(** ** Hook paths *)

Lemma has_slash_app (a b : string) :
  has_slash (a +:+ b) = has_slash a || has_slash b.
Proof.
  induction a as [|c a IH]; simpl; [done|]. by case_decide.
Qed.

Lemma has_dot_app (a b : string) :
  has_dot (a +:+ b) = has_dot a || has_dot b.
Proof.
  induction a as [|c a IH]; simpl; [done|]. by case_decide.
Qed.

Lemma cut_at_dot (a a' b b' : string) :
  has_dot a = false → has_dot a' = false →
  a +:+ "." +:+ b = a' +:+ "." +:+ b' → a = a' ∧ b = b'.
Proof.
  revert a'. induction a as [|c a IH]; intros [|c' a'] Ha Ha' Heq.
  - split; [done|]. by injection Heq.
  - exfalso. injection Heq as Hc _. simpl in Ha'. rewrite <- Hc in Ha'.
    by rewrite decide_True in Ha'.
  - exfalso. injection Heq as Hc _. simpl in Ha. rewrite Hc in Ha.
    by rewrite decide_True in Ha.
  - injection Heq as Hc Hr. subst c'. simpl in Ha, Ha'.
    case_decide; [done|].
    destruct (IH a' Ha Ha' Hr) as [-> ->]. done.
Qed.

Lemma GVR_GroupResource_String_inj (gvr1 gvr2 : GroupVersionResource) :
  has_dot (GVR_Resource gvr1) = false →
  has_dot (GVR_Resource gvr2) = false →
  GVR_GroupResource_String gvr1 = GVR_GroupResource_String gvr2 →
  GVR_Resource gvr1 = GVR_Resource gvr2 ∧ GVR_Group gvr1 = GVR_Group gvr2.
Proof.
  unfold GVR_GroupResource_String. intros H1 H2.
  case_decide as Hg1; case_decide as Hg2.
  - intros ->. by rewrite Hg1, Hg2.
  - intros Heq. rewrite Heq, has_dot_app in H1.
    apply orb_false_iff in H1 as [_ H1]. done.
  - intros Heq. rewrite <- Heq, has_dot_app in H2.
    apply orb_false_iff in H2 as [_ H2]. done.
  - intros Heq. by apply cut_at_dot.
Qed.

Lemma has_slash_GroupResource (gvr : GroupVersionResource) :
  has_slash (GVR_Group gvr) = false →
  has_slash (GVR_Resource gvr) = false →
  has_slash (GVR_GroupResource_String gvr) = false.
Proof.
  unfold GVR_GroupResource_String. intros Hg Hr. case_decide; [done|].
  rewrite !has_slash_app, Hg, Hr. reflexivity.
Qed.

Lemma hook_path_inj kind gvr1 gvr2 :
  well_named gvr1 → well_named gvr2 →
  hook_path kind gvr1 = hook_path kind gvr2 → gvr1 = gvr2.
Proof.
  intros (Hg1 & Hv1 & Hr1 & Hd1) (Hg2 & Hv2 & Hr2 & Hd2). unfold hook_path. cbv zeta.
  intros Heq.
  do 3 apply (inj (String.app _)) in Heq.
  assert (split_slash (GVR_GroupResource_String gvr1 +:+ "/" +:+ GVR_Version gvr1) =
          split_slash (GVR_GroupResource_String gvr2 +:+ "/" +:+ GVR_Version gvr2))
    as Hs by by rewrite Heq.
  rewrite !split_slash_app in Hs by by apply has_slash_GroupResource.
  rewrite !split_slash_free in Hs by done.
  injection Hs as Hgr Hv.
  destruct (GVR_GroupResource_String_inj _ _ Hd1 Hd2 Hgr) as [Hr Hg].
  destruct gvr1, gvr2. simpl in *. by subst.
Qed.

(** X13 (distinct hooks, distinct paths).  Among sync, finalize and
    customize hooks of resources that hold no "/" in group, version or
    resource and no "." in the resource, two hooks that differ in kind or
    in resource have different paths. *)
Theorem hook_paths_distinct kind1 kind2 gvr1 gvr2 :
  kind1 ∈ hook_kinds → kind2 ∈ hook_kinds →
  well_named gvr1 → well_named gvr2 →
  (kind1, gvr1) ≠ (kind2, gvr2) →
  hook_path kind1 gvr1 ≠ hook_path kind2 gvr2.
Proof.
  intros Hk1 Hk2 Hw1 Hw2 Hne Heq.
  unfold hook_kinds in Hk1, Hk2.
  rewrite !elem_of_cons, elem_of_nil in Hk1.
  rewrite !elem_of_cons, elem_of_nil in Hk2.
  destruct Hk1 as [->|[->|[->|[]]]]; destruct Hk2 as [->|[->|[->|[]]]];
    try discriminate Heq;
    apply Hne; f_equal; by eapply hook_path_inj.
Qed.

(** ** Buckets of the Child Set *)

Section buckets.
Context `{JSONEncoder}.
Implicit Types decoder : RawMessage → result (Object * GroupVersionKind).

Lemma foldl_observe_lookup_opt decoder (l : list RawMessage) (cs : ChildSet) gvk :
  foldl (observe decoder) cs l !! gvk =
  match omap (decodes_to decoder gvk) l with
  | [] => cs !! gvk
  | objs => Some (cs !!! gvk ++ objs)
  end.
Proof.
  revert cs. induction l as [|raw l IH]; intros cs; [done|].
  simpl. rewrite IH.
  assert (decodes_to decoder gvk raw =
          match decoder raw with
          | inl (obj, g) =>
              if isClientObject obj && bool_decide (g = gvk) then Some obj else None
          | inr _ => None
          end) as -> by reflexivity.
  unfold observe.
  fold (omap (M := list) (decodes_to decoder gvk) l).
  destruct (decoder raw) as [[obj g]|err]; [|reflexivity].
  destruct (isClientObject obj); simpl; [|reflexivity].
  case_bool_decide as Hg.
  - subst g. rewrite lookup_insert_eq, lookup_total_insert_eq.
    fold (omap (M := list) (decodes_to decoder gvk) l).
    destruct (omap _ l) as [|o objs]; [done|]. by rewrite <- app_assoc.
  - rewrite lookup_insert_ne, lookup_total_insert_ne by done. reflexivity.
Qed.

Lemma omap_nil_iff {A B : Type} (f : A → option B) (l : list A) :
  omap f l ≠ [] ↔ ∃ x, x ∈ l ∧ is_Some (f x).
Proof.
  induction l as [|a l IH]; simpl.
  - split; [done|]. intros (x & Hin & _). by apply elem_of_nil in Hin.
  - destruct (f a) as [b|] eqn:Hfa.
    + split; [|done]. intros _. exists a. split; [left|by rewrite Hfa].
    + rewrite IH. split.
      * intros (x & Hin & Hx). exists x. split; [by right|done].
      * intros (x & Hin & Hx). apply elem_of_cons in Hin as [->|Hin].
        -- rewrite Hfa in Hx. by destruct Hx.
        -- by exists x.
Qed.

(** X14 (no empty bucket).  The Child Set handed to the syncer has a
    bucket for a kind exactly when some child of the children map decodes
    to that kind as a [client.Object]; a kind all of whose children were
    skipped has no bucket, and no bucket is an empty list. *)
Theorem no_empty_bucket ord sh r e p g :
  req_body r = inl e →
  sync_decoder sh (wire_parent e) = inl (p, g) →
  sync_P sh p = true →
  ∃ cs,
    calls (run (syncHandler_ServeHTTP ord sh r)) =
      [SyncCall {| SyncRequest_Parent := p;
                   SyncRequest_Children := cs;
                   SyncRequest_Finalizing := wire_finalizing e |}] ∧
    ∀ gvk,
      (is_Some (cs !! gvk) ↔
         ∃ raw, raw ∈ items (children_of e) ∧
                is_Some (decodes_to (sync_decoder sh) gvk raw)) ∧
      cs !! gvk ≠ Some [].
Proof.
  intros Hb Hp HP.
  destruct (sync_outcome_assembled ord sh r e p g Hb Hp HP) as (later & Hc & _).
  exists (observed ord (sync_decoder sh) e). split.
  { rewrite syncHandler_run. exact Hc. }
  intros gvk. unfold observed. rewrite foldl_observe_lookup_opt.
  rewrite lookup_empty, lookup_total_empty.
  pose proof (omap_nil_iff (decodes_to (sync_decoder sh) gvk)
                (visit ord (children_of e))) as Hiff.
  assert ((∃ raw, raw ∈ visit ord (children_of e) ∧
                  is_Some (decodes_to (sync_decoder sh) gvk raw)) ↔
          (∃ raw, raw ∈ items (children_of e) ∧
                  is_Some (decodes_to (sync_decoder sh) gvk raw))) as Hperm.
  { split; intros (raw & Hin & Hd); exists raw; (split; [|done]).
    - by rewrite <- (visit_items ord).
    - by rewrite (visit_items ord). }
  rewrite <- Hperm, <- Hiff.
  destruct (omap _ _) as [|o objs]; simpl.
  - split; [|done]. split; [by intros [? ?]|done].
  - split; [|done]. split; [done|by eexists].
Qed.
End buckets.

(** ** Concrete runs of the further properties *)

Import ToyRuns.

Lemma fresh_unstarted : unstarted fresh.
Proof. split; [|reflexivity]. split; [apply NoDup_nil_2|apply Forall_nil_2]. Qed.

Lemma synced_unstarted : unstarted synced.
Proof.
  split; [|reflexivity]. split; [apply NoDup_singleton|].
  apply Forall_cons_2; [reflexivity|apply Forall_nil_2].
Qed.

Lemma error_detail_is_logged_witness :
  let r := post sync_path (inl two_children) in
  let w := run (Handler_ServeHTTP forward (SyncHandler (sh failing verbose)) r) in
  response_status (writer w) = 500 ∧
  ∃ detail earlier,
    logs w = earlier ++ [error_record detail] ∧
    rw_body (writer w) = [PlainText (error_text verbose 500 detail)].
Proof.
  intros r w.
  assert (response_status (writer w) = 500) as Hs by reflexivity.
  split; [exact Hs|].
  destruct (error_detail_is_logged forward (SyncHandler (sh failing verbose)) r)
    as (detail & earlier & Hl & Hb).
  - fold w. rewrite Hs. discriminate.
  - exists detail, earlier. split; [exact Hl|]. fold w in Hb. rewrite Hs in Hb. exact Hb.
Defined.

Lemma echo_encodable :
  ¬ child_unencodable (encode (GVR_GroupVersion widgets)) echoed.
Proof.
  intros (gvk & objs & o & Hl & Hin & He). simpl in Hl.
  apply lookup_singleton_Some in Hl as [<- <-].
  apply list_elem_of_singleton in Hin as ->. exact He.
Qed.

Lemma sync_success_payload_witness :
  let r := post sync_path (inl two_children) in
  let w := run (syncHandler_ServeHTTP forward (sh echo quiet) r) in
  ∃ desired,
    rw_body (writer w) =
      [JSON (EncRawCompositeResponse
               {| rawCompositeResponse_Status := bytes "W:w1";
                  rawCompositeResponse_Children := desired;
                  rawCompositeResponse_Finalized := false |})] ∧
    desired !! "v1/Service" = Some [bytes "S:w1-svc"].
Proof.
  intros r w.
  destruct (sync_success_payload forward (sh echo quiet) r two_children (Widget "w1")
              WidgetGVK
              echoed (bytes "W:w1") eq_refl eq_refl eq_refl eq_refl eq_refl echo_encodable)
    as (desired & Hbody & _ & _ & Hbucket).
  exists desired. split; [exact (proj1 (Hbody eq_refl))|].
  destruct (Hbucket ServiceGVK [Service "w1-svc"]) as (raws & Hl & Hall).
  - apply lookup_singleton_eq.
  - intros gvk' [objs Hl] _. simpl in Hl. by apply lookup_singleton_Some in Hl as [<- _].
  - change (KeyForGVK ServiceGVK) with "v1/Service" in Hl. rewrite Hl. f_equal.
    apply Forall2_cons_inv_l in Hall as (raw & rest & He & Hrest & ->).
    apply Forall2_nil_inv_l in Hrest as ->.
    injection He as <-. reflexivity.
Defined.

Lemma customize_passes_through_witness :
  let r := post customize_path (inl no_children) in
  let w := run (customizeHandler_ServeHTTP ch r) in
  calls w = [CustomizeCall {| CustomizeRequest_Controller := [];
                              CustomizeRequest_Parent := Widget "w1" |}] ∧
  response_status (writer w) = 200 ∧
  logs w = [].
Proof.
  intros r w.
  destruct (customize_passes_through ch r no_children (Widget "w1") WidgetGVK
              related_rules eq_refl eq_refl eq_refl eq_refl eq_refl)
    as (Hc & _ & Hs & Hl).
  split; [exact Hc|]. split; [exact Hs|exact Hl].
Defined.

Lemma SyncHook_serves_witness :
  SyncHook is_widget widgets echo fresh = Some synced ∧
  serve forward synced (post sync_path (inl two_children)) =
  run (syncHandler_ServeHTTP forward (sh echo quiet) (post sync_path (inl two_children))).
Proof.
  split; [reflexivity|].
  exact (SyncHook_serves forward is_widget widgets echo fresh synced
           (post sync_path (inl two_children)) fresh_unstarted eq_refl eq_refl eq_refl).
Defined.

Lemma registration_is_additive_witness :
  ∃ hs',
    FinalizeHook is_widget widgets finish synced = Some hs' ∧
    serve forward hs' (post sync_path (inl two_children)) =
    serve forward synced (post sync_path (inl two_children)).
Proof.
  eexists. split; [reflexivity|].
  exact (registration_is_additive forward (FinalizeHook is_widget widgets finish) synced _
           (post sync_path (inl two_children)) synced_unstarted
           (provided_FinalizeHook _ _ _) eq_refl (list_elem_of_here _ _)).
Defined.

Lemma hook_keeps_logger_of_registration_witness :
  ∃ hs2,
    Logger verbose synced = Some hs2 ∧
    logger hs2 = verbose ∧
    serve forward hs2 (post sync_path (inl two_children)) =
    run (syncHandler_ServeHTTP forward (sh echo quiet) (post sync_path (inl two_children))).
Proof.
  eexists. split; [reflexivity|].
  exact (hook_keeps_logger_of_registration forward is_widget widgets echo fresh synced _
           verbose (post sync_path (inl two_children)) fresh_unstarted eq_refl eq_refl
           eq_refl eq_refl).
Defined.


Lemma legacy_list_order_kept_witness :
  ∃ cs,
    calls (run (legacy.syncHandler_ServeHTTP listed legacy_sh (legacy_post listed_children))) =
      [SyncCall {| SyncRequest_Parent := Widget "w1";
                   SyncRequest_Children := cs;
                   SyncRequest_Finalizing := true |}] ∧
    cs !!! DeploymentGVK = [Deployment "a"; Deployment "b"].
Proof.
  destruct (legacy_list_order_kept listed legacy_sh (legacy_post listed_children)
              listed_children (Widget "w1") WidgetGVK DeploymentGVK
              "Deployment.apps/v1" [bytes "D:a"; bytes "{metadata:"; bytes "D:b"]
              eq_refl eq_refl eq_refl)
    as (cs & Hc & Hb).
  - reflexivity.
  - intros k' raws' Hne Hl.
    change (legacy.children_of listed_children)
      with (<["Service.v1" := [bytes "S:svc"]]>
              (<["Deployment.apps/v1" := [bytes "D:a"; bytes "{metadata:"; bytes "D:b"]]>
                 (∅ : gmap string (list RawMessage)))) in Hl.
    apply lookup_insert_Some in Hl as [[_ <-]|[_ Hl]]; [reflexivity|].
    apply lookup_insert_Some in Hl as [[Heq _]|[_ Hl]]; [by destruct Hne|].
    by rewrite lookup_empty in Hl.
  - exists cs. split; [exact Hc|]. etrans; [exact Hb|]. reflexivity.
Defined.



Lemma wrong_method_never_reaches_handler_witness :
  let w := serve forward ToyServer.hs (get sync_path) in
  calls w = [] ∧ logs w = [] ∧
  rw_header (writer w) !! "Allow" = Some "POST" ∧
  rw_code (writer w) = Some 405 ∧
  rw_body (writer w) = [PlainText ("Method Not Allowed" +:+ newline)].
Proof.
  exact (wrong_method_never_reaches_handler forward ToyServer.hs (SyncHandler (sh echo quiet))
           (get sync_path)
           (proj1 (NewHookServer_unstarted _ _ ToyServer_provided ToyServer_built))
           (list_elem_of_here _ _) ltac:(discriminate)).
Defined.

Lemma hook_paths_distinct_witness :
  hook_path "sync" widgets ≠ hook_path "sync" gadgets ∧
  hook_path "sync" widgets ≠ hook_path "finalize" widgets.
Proof.
  assert (well_named widgets) as Hw by (repeat split; reflexivity).
  assert (well_named gadgets) as Hg by (repeat split; reflexivity).
  split.
  - apply (hook_paths_distinct "sync" "sync" widgets gadgets);
      [apply list_elem_of_here|apply list_elem_of_here|exact Hw|exact Hg|discriminate].
  - apply (hook_paths_distinct "sync" "finalize" widgets widgets);
      [apply list_elem_of_here|apply list_elem_of_further, list_elem_of_here
      |exact Hw|exact Hw|discriminate].
Defined.

Lemma no_empty_bucket_witness :
  let r := post sync_path (inl mixed_children) in
  ∃ cs,
    calls (run (syncHandler_ServeHTTP forward (sh echo quiet) r)) =
      [SyncCall {| SyncRequest_Parent := Widget "w1";
                   SyncRequest_Children := cs;
                   SyncRequest_Finalizing := false |}] ∧
    cs !! StatusGVK = None ∧
    is_Some (cs !! DeploymentGVK).
Proof.
  intros r.
  destruct (no_empty_bucket forward (sh echo quiet) r mixed_children (Widget "w1")
              WidgetGVK eq_refl eq_refl eq_refl) as (cs & Hc & Hb).
  assert (∃ l, items (children_of mixed_children) = l ∧ bytes "D:a" ∈ l ∧
               Forall (fun raw => decodes_to decode StatusGVK raw = None) l)
    as (l & Hl & Hin & Hall).
  { eexists. split; [vm_compute; reflexivity|]. split.
    - rewrite !elem_of_cons. vm_compute. tauto.
    - repeat (apply Forall_cons_2; [vm_compute; reflexivity|]). apply Forall_nil_2. }
  exists cs. split; [exact Hc|]. split.
  - apply eq_None_not_Some. intros Hs.
    apply (proj1 (Hb StatusGVK)) in Hs as (raw & Hraw & Hd).
    rewrite Hl in Hraw. rewrite Forall_forall in Hall.
    change (is_Some (decodes_to decode StatusGVK raw)) in Hd.
    rewrite (Hall raw Hraw) in Hd. by destruct Hd.
  - apply (proj1 (Hb DeploymentGVK)). exists (bytes "D:a"). split.
    + by rewrite Hl.
    + eexists. vm_compute. reflexivity.
Defined.
